(** * Cafe directory service (src/main.py)

    A shallow embedding of the FastAPI application of [src/main.py] and the
    properties of its seven endpoints.

    Layout of the model:
    - the [cafes] table is a list of rows in rowid order (the order in which
      an unordered [SELECT] over the table returns them);
    - a SQLAlchemy [Session] is the table together with its unit of work:
      the objects given to [add], the attribute assignments and the objects
      given to [delete], all of them written by [commit] only
      ([autoflush=False]);
    - a handler is a computation in a state-and-exception monad over the
      session; [get_db] opens a session on the database, runs the handler and
      closes the session, whatever the handler did;
    - the route decorators add request validation ([CafeCreate]), response
      validation ([response_model]) and the status code of the reply.

    Integers are Python's (unbounded, [Z]); SQLite's INTEGER is a signed
    64-bit number, so an integer bound to a statement has to lie in that
    range, and the rowid of a new row is chosen within it.  Strings are
    compared byte by byte, as SQLite's default BINARY collation does. *)

From stdpp Require Import base decidable option list numbers strings sorting.
From Stdlib Require Import ZArith Lia Ascii.

Open Scope Z_scope.
Open Scope string_scope.
Open Scope list_scope.

(** ** Data model *)

(** [class Cafe(Base)]: a row of the [cafes] table.  [coffee_price] is the
    only nullable column. *)
Module Cafe.
Record t : Type := mk {
  id : Z;
  name : string;
  map_url : string;
  img_url : string;
  location : string;
  seats : string;
  has_toilet : bool;
  has_wifi : bool;
  has_sockets : bool;
  can_take_calls : bool;
  coffee_price : option string
}.
End Cafe.

(** [class CafeBase(BaseModel)]: ten fields, none with a default value. *)
Module CafeBase.
Record t : Type := mk {
  name : string;
  map_url : string;
  img_url : string;
  location : string;
  seats : string;
  has_toilet : bool;
  has_wifi : bool;
  has_sockets : bool;
  can_take_calls : bool;
  coffee_price : string
}.
End CafeBase.

(** [class CafeCreate(CafeBase): pass]. *)
Definition CafeCreate : Type := CafeBase.t.

(** [class CafeResponse(CafeBase)]: the fields of [CafeBase] and [id: int]. *)
Module CafeResponse.
Record t : Type := mk {
  id : Z;
  base : CafeBase.t
}.
End CafeResponse.

(** The JSON object in the body of [POST /add], before validation: each key of
    the model is present with a value of its type, or absent. *)
Module Body.
Record t : Type := mk {
  name : option string;
  map_url : option string;
  img_url : option string;
  location : option string;
  seats : option string;
  has_toilet : option bool;
  has_wifi : option bool;
  has_sockets : option bool;
  can_take_calls : option bool;
  coffee_price : option string
}.
End Body.

(** ** Exceptions and the handler monad *)

Inductive exn : Type :=
| HTTPException (status_code : Z) (detail : string)
| RequestValidationError
| ResponseValidationError
| IntegrityError
| OperationalError
| OverflowError
| InvalidRequestError
| IndexError.

Inductive outcome (A : Type) : Type :=
| Return (a : A)
| Raise (e : exn).

Arguments Return {A} a.
Arguments Raise {A} e.

(** A reference to a mapped [Cafe] object held by a handler. *)
Inductive instance : Type :=
| Pending (n : nat)      (* the [n]-th object given to [Session.add] *)
| Persistent (pk : Z).   (* an object loaded from the row with this key *)

Record Session : Type := mkSession {
  table : list Cafe.t;           (* the rows of [cafes], in rowid order *)
  new : list ((nat -> Z) * CafeBase.t);
                                 (* columns of the objects waiting for INSERT,
                                    each with the random numbers the engine
                                    will draw if it has to pick its rowid *)
  identity : list Z;             (* keys of the added objects already flushed *)
  dirty : list (Z * string);     (* [coffee_price] assignments waiting for UPDATE *)
  deleted : list Z               (* keys of the objects waiting for DELETE *)
}.

Definition M (A : Type) : Type := Session -> outcome A * Session.

Definition ret {A} (a : A) : M A := fun s => (Return a, s).

Definition raise {A} (e : exn) : M A := fun s => (Raise e, s).

Definition bind {A B} (m : M A) (k : A -> M B) : M B :=
  fun s =>
    match m s with
    | (Return a, s') => k a s'
    | (Raise e, s') => (Raise e, s')
    end.

Declare Scope handler_scope.
Delimit Scope handler_scope with handler.
Notation "x <- c1 ;; c2" := (bind c1 (fun x => c2))
  (at level 100, c1 at next level, right associativity) : handler_scope.
Notation "c1 ;; c2" := (bind c1 (fun _ => c2))
  (at level 100, c2 at level 200, right associativity) : handler_scope.

(** ** The store: SQLite behind SQLAlchemy *)

(** The range of SQLite's INTEGER, and of the integers the [sqlite3] driver
    accepts for a statement parameter. *)
Definition min_int64 : Z := -9223372036854775808.
Definition max_int64 : Z := 9223372036854775807.

Definition int64 (n : Z) : Prop := min_int64 <= n <= max_int64.

(** An INTEGER PRIMARY KEY column without AUTOINCREMENT.  A new row gets 1 in
    an empty table and one more than the largest key otherwise; when the
    largest key is the largest 64-bit integer, the engine draws positive
    candidates at random ([random_rowid] of a random number: its low 62 bits,
    plus one) and takes the first that is not in use; after [rowid_attempts]
    draws that are all in use the INSERT fails (SQLITE_FULL). *)
Definition max_rowid (t : list Cafe.t) : option Z :=
  match t with
  | [] => None
  | c :: t' => Some (foldr (fun r m => Z.max (Cafe.id r) m) (Cafe.id c) t')
  end.

Definition random_rowid (r : Z) : Z := Z.land r (Z.ones 62) + 1.

Definition rowid_attempts : nat := 100.

Definition new_rowid (rowids : nat -> Z) (t : list Cafe.t) : option Z :=
  match max_rowid t with
  | None => Some 1
  | Some m =>
      if decide (m < max_int64) then Some (m + 1)
      else head (filter (fun v => v ∉ Cafe.id <$> t)
                   ((fun i => random_rowid (rowids i)) <$> seq 0 rowid_attempts))
  end.

(** The row of a [Cafe] object built from the dict of a [CafeCreate], once
    its key is known. *)
Definition Cafe_row (pk : Z) (f : CafeBase.t) : Cafe.t :=
  Cafe.mk pk (CafeBase.name f) (CafeBase.map_url f) (CafeBase.img_url f)
    (CafeBase.location f) (CafeBase.seats f) (CafeBase.has_toilet f)
    (CafeBase.has_wifi f) (CafeBase.has_sockets f) (CafeBase.can_take_calls f)
    (Some (CafeBase.coffee_price f)).

(** A table is kept in rowid order: a new row goes before the first row
    with a larger key. *)
Fixpoint insert_by_rowid (row : Cafe.t) (t : list Cafe.t) : list Cafe.t :=
  match t with
  | [] => [row]
  | c :: t' =>
      if decide (Cafe.id row < Cafe.id c) then row :: c :: t'
      else c :: insert_by_rowid row t'
  end.

(** INSERT INTO cafes: the rowid is chosen first, then the constraints are
    checked; the INSERT is refused when [name] is taken ([unique=True]). *)
Definition sql_insert (rowids : nat -> Z) (f : CafeBase.t) (t : list Cafe.t) : exn + (list Cafe.t * Z) :=
  match new_rowid rowids t with
  | None => inl OperationalError
  | Some pk =>
      if decide (CafeBase.name f ∈ Cafe.name <$> t) then inl IntegrityError
      else inr (insert_by_rowid (Cafe_row pk f) t, pk)
  end.

Definition set_coffee_price (p : string) (c : Cafe.t) : Cafe.t :=
  Cafe.mk (Cafe.id c) (Cafe.name c) (Cafe.map_url c) (Cafe.img_url c)
    (Cafe.location c) (Cafe.seats c) (Cafe.has_toilet c) (Cafe.has_wifi c)
    (Cafe.has_sockets c) (Cafe.can_take_calls c) (Some p).

(** UPDATE cafes SET coffee_price=? WHERE cafes.id = ? *)
Definition sql_update (u : Z * string) (t : list Cafe.t) : list Cafe.t :=
  (fun c => if decide (Cafe.id c = u.1) then set_coffee_price u.2 c else c) <$> t.

(** DELETE FROM cafes WHERE cafes.id = ? *)
Definition sql_delete (pk : Z) (t : list Cafe.t) : list Cafe.t :=
  filter (fun c => Cafe.id c ≠ pk) t.

(** OFFSET and LIMIT of SQLite, on parameters that were bound (so 64-bit
    integers): a negative offset counts as zero, a negative limit as no
    limit. *)
Definition sql_offset (n : Z) (t : list Cafe.t) : list Cafe.t :=
  drop (Z.to_nat n) t.

Definition sql_limit (n : Z) (t : list Cafe.t) : list Cafe.t :=
  if decide (n < 0) then t else take (Z.to_nat n) t.

(** The flush of a unit of work: inserts, then updates, then deletes. *)
Fixpoint flush_new (fs : list ((nat -> Z) * CafeBase.t)) (t : list Cafe.t) : exn + (list Cafe.t * list Z) :=
  match fs with
  | [] => inr (t, [])
  | (rowids, f) :: fs' =>
      match sql_insert rowids f t with
      | inl e => inl e
      | inr (t', pk) =>
          match flush_new fs' t' with
          | inl e => inl e
          | inr (t'', pks) => inr (t'', pk :: pks)
          end
      end
  end.

Definition flush_dirty (us : list (Z * string)) (t : list Cafe.t) : list Cafe.t :=
  foldl (fun t' u => sql_update u t') t us.

Definition flush_deleted (pks : list Z) (t : list Cafe.t) : list Cafe.t :=
  foldl (fun t' pk => sql_delete pk t') t pks.

(** [SessionLocal()]: a session with an empty unit of work. *)
Definition SessionLocal (database : list Cafe.t) : Session :=
  mkSession database [] [] [] [].

(** [db.execute(select(Cafe)).scalars().all()] *)
Definition select_all : M (list Cafe.t) :=
  fun s => (Return (table s), s).

(** Binding a Python [int] to a parameter of a statement: the driver raises
    [OverflowError] for an integer outside the signed 64-bit range, and the
    statement is not run. *)
Definition bind_param (n : Z) : M Z :=
  if decide (int64 n) then ret n else raise OverflowError.

(** [db.execute(select(Cafe).offset(skip).limit(limit)).scalars().all()]:
    [skip] and [limit] are parameters of the statement. *)
Definition select_offset_limit (skip limit : Z) : M (list Cafe.t) :=
  bind (bind_param skip) (fun skip' =>
  bind (bind_param limit) (fun limit' =>
  fun s => (Return (sql_limit limit' (sql_offset skip' (table s))), s))).

(** [db.execute(select(Cafe).where(Cafe.location == v)).scalars().all()] *)
Definition select_where_location (v : string) : M (list Cafe.t) :=
  fun s => (Return (filter (fun c => Cafe.location c = v) (table s)), s).

(** [db.query(Cafe).filter(Cafe.id == cafe_id).first()]: [cafe_id] is a
    parameter of the statement. *)
Definition query_filter_id_first (cafe_id : Z) : M (option instance) :=
  bind (bind_param cafe_id) (fun cafe_id' =>
  fun s =>
    (Return ((fun c => Persistent (Cafe.id c))
               <$> head (filter (fun c => Cafe.id c = cafe_id') (table s))), s)).

(** [db.add(obj)] for a new object with the columns [f]; [rowids] are the
    random numbers of the engine for its INSERT. *)
Definition db_add (rowids : nat -> Z) (f : CafeBase.t) : M instance :=
  fun s =>
    (Return (Pending (length (identity s) + length (new s))%nat),
     mkSession (table s) (new s ++ [(rowids, f)]) (identity s) (dirty s) (deleted s)).

(** [obj.coffee_price = p] on an object of the session. *)
Definition assign_coffee_price (obj : instance) (p : string) : M unit :=
  fun s =>
    match obj with
    | Persistent pk =>
        (Return tt, mkSession (table s) (new s) (identity s) (dirty s ++ [(pk, p)]) (deleted s))
    | Pending _ => (Raise InvalidRequestError, s)
    end.

(** [db.delete(obj)] *)
Definition db_delete (obj : instance) : M unit :=
  fun s =>
    match obj with
    | Persistent pk =>
        (Return tt, mkSession (table s) (new s) (identity s) (dirty s) (deleted s ++ [pk]))
    | Pending _ => (Raise InvalidRequestError, s)
    end.

(** [db.commit()]: flush and commit; a failed INSERT rolls the transaction
    back and raises. *)
Definition db_commit : M unit :=
  fun s =>
    match flush_new (new s) (table s) with
    | inl e => (Raise e, mkSession (table s) [] (identity s) [] [])
    | inr (t1, pks) =>
        (Return tt,
         mkSession (flush_deleted (deleted s) (flush_dirty (dirty s) t1))
           [] (identity s ++ pks) [] [])
    end.

(** [db.refresh(obj)]: the columns of the object's row, read again by its
    key, which the object got from the database. *)
Definition db_refresh (obj : instance) : M Cafe.t :=
  fun s =>
    let pk := match obj with
              | Persistent pk => Some pk
              | Pending n => identity s !! n
              end in
    match pk with
    | None => (Raise InvalidRequestError, s)
    | Some pk =>
        match head (filter (fun c => Cafe.id c = pk) (table s)) with
        | Some c => (Return c, s)
        | None => (Raise InvalidRequestError, s)
        end
    end.

(** [get_db]: [db = SessionLocal(); try: yield db; finally: db.close()].
    What is left in the unit of work at [close] is dropped. *)
Definition get_db {A} (handler : M A) (database : list Cafe.t) : outcome A * list Cafe.t :=
  let '(r, s) := handler (SessionLocal database) in (r, table s).

(** ** Python helpers *)

(** [a in chars] *)
Fixpoint in_chars (chars : string) (a : ascii) : bool :=
  match chars with
  | EmptyString => false
  | String b chars' => bool_decide (a = b) || in_chars chars' a
  end.

(** [str.lstrip(chars)], [str.rstrip(chars)] and [str.strip(chars)]. *)
Fixpoint lstrip (chars s : string) : string :=
  match s with
  | EmptyString => EmptyString
  | String a s' => if in_chars chars a then lstrip chars s' else s
  end.

Fixpoint rstrip (chars s : string) : string :=
  match s with
  | EmptyString => EmptyString
  | String a s' =>
      match rstrip chars s' with
      | EmptyString => if in_chars chars a then EmptyString else String a EmptyString
      | r => String a r
      end
  end.

Definition strip (chars s : string) : string := rstrip chars (lstrip chars s).

(** What is left to say about a stripped string: the characters removed are
    all in [chars], and the rest neither starts nor ends with one. *)
Fixpoint only_chars (chars s : string) : bool :=
  match s with
  | EmptyString => true
  | String a s' => in_chars chars a && only_chars chars s'
  end.

Definition starts_in (chars s : string) : bool :=
  match s with
  | EmptyString => false
  | String a _ => in_chars chars a
  end.

Fixpoint ends_in (chars s : string) : bool :=
  match s with
  | EmptyString => false
  | String a EmptyString => in_chars chars a
  | String _ s' => ends_in chars s'
  end.

(** The argument of [loc.strip]: an apostrophe and a double quote (character
    34). *)
Definition quote_chars : string := String "'" (String "034" EmptyString).

(** [random.choice(seq)] is [seq[self._randbelow(len(seq))]], and raises
    [IndexError] (here [None]) on an empty sequence; [seed] stands for the
    state of the generator, and every index below [n] is drawn by some
    state. *)
Definition randbelow (seed n : nat) : nat := (seed mod n)%nat.

Definition random_choice {A} (seed : nat) (seq : list A) : option A :=
  seq !! randbelow seed (length seq).

(** ** The handlers *)

Section handlers.
Local Open Scope handler_scope.

Definition read_cafes (skip limit : Z) : M (list Cafe.t) :=
  cafes <- select_offset_limit skip limit ;;
  ret cafes.

Definition random_cafe (seed : nat) : M Cafe.t :=
  cafes <- select_all ;;
  match cafes with
  | [] => raise (HTTPException 404 "No cafes available")
  | _ =>
      match random_choice seed cafes with
      | Some random_cafe => ret random_cafe
      | None => raise IndexError
      end
  end.

Definition all_cafe : M (list Cafe.t) :=
  cafes <- select_all ;;
  ret cafes.

Definition find_cafe (loc : string) : M (list Cafe.t) :=
  cafes <- select_where_location (strip quote_chars loc) ;;
  match cafes with
  | [] => raise (HTTPException 404 "Sorry, we don't have a cafe at the location")
  | _ => ret cafes
  end.

Definition add_cafe (rowids : nat -> Z) (cafe : CafeCreate) : M Cafe.t :=
  new_cafe <- db_add rowids cafe ;;
  db_commit ;;
  db_refresh new_cafe.

Definition update_price (cafe_id : Z) (new_price : string) : M Cafe.t :=
  cafe <- query_filter_id_first cafe_id ;;
  match cafe with
  | None => raise (HTTPException 404 "Cafe not found")
  | Some cafe =>
      assign_coffee_price cafe new_price ;;
      db_commit ;;
      db_refresh cafe
  end.

Definition delete_cafe (cafe_id : Z) (api_key : string) : M (list (string * string)) :=
  if decide (api_key ≠ "TopSecretAPIKey") then
    raise (HTTPException 403 "Forbidden: Invalid API Key")
  else
    cafe <- query_filter_id_first cafe_id ;;
    match cafe with
    | None => raise (HTTPException 404 "Cafe not found")
    | Some cafe =>
        db_delete cafe ;;
        db_commit ;;
        ret [("success", "Successfully deleted the cafe from the database.")]
    end.

End handlers.

(** ** The routes *)

(** Validation of the body of [POST /add] against [CafeCreate]: a field
    without a default value is required. *)
Definition CafeCreate_validate (body : Body.t) : option CafeCreate :=
  name ← Body.name body;
  map_url ← Body.map_url body;
  img_url ← Body.img_url body;
  location ← Body.location body;
  seats ← Body.seats body;
  has_toilet ← Body.has_toilet body;
  has_wifi ← Body.has_wifi body;
  has_sockets ← Body.has_sockets body;
  can_take_calls ← Body.can_take_calls body;
  coffee_price ← Body.coffee_price body;
  Some (CafeBase.mk name map_url img_url location seats
          has_toilet has_wifi has_sockets can_take_calls coffee_price).

(** Validation of a returned [Cafe] object against [CafeResponse]
    ([from_attributes = True]): [coffee_price: str] refuses [None]. *)
Definition CafeResponse_validate (c : Cafe.t) : option CafeResponse.t :=
  coffee_price ← Cafe.coffee_price c;
  Some (CafeResponse.mk (Cafe.id c)
          (CafeBase.mk (Cafe.name c) (Cafe.map_url c) (Cafe.img_url c)
             (Cafe.location c) (Cafe.seats c) (Cafe.has_toilet c)
             (Cafe.has_wifi c) (Cafe.has_sockets c) (Cafe.can_take_calls c)
             coffee_price)).

(** [response_model=...]: the value a handler returns is validated before it
    is sent. *)
Definition response_model {A B} (validate : A -> option B) (r : outcome A) : outcome B :=
  match r with
  | Return a =>
      match validate a with
      | Some b => Return b
      | None => Raise ResponseValidationError
      end
  | Raise e => Raise e
  end.

(** The status code of the reply.  An [HTTPException] carries its own; a
    request that fails validation is answered 422; any other exception is not
    handled by the application and the server answers 500. *)
Definition status_code {A} (r : outcome A) : Z :=
  match r with
  | Return _ => 200
  | Raise (HTTPException code _) => code
  | Raise RequestValidationError => 422
  | Raise ResponseValidationError => 500
  | Raise IntegrityError => 500
  | Raise OperationalError => 500
  | Raise OverflowError => 500
  | Raise InvalidRequestError => 500
  | Raise IndexError => 500
  end.

Definition client_error (code : Z) : Prop := 400 <= code < 500.

Definition route {A B} (validate : A -> option B) (handler : M A) (database : list Cafe.t) : outcome B * list Cafe.t :=
  let '(r, database') := get_db handler database in
  (response_model validate r, database').

(** [@app.get("/", response_model=List[CafeResponse])] *)
Definition GET_root (skip limit : Z) : list Cafe.t -> outcome (list CafeResponse.t) * list Cafe.t :=
  route (mapM CafeResponse_validate) (read_cafes skip limit).

(** [@app.get("/random", response_model=CafeResponse)] *)
Definition GET_random (seed : nat) : list Cafe.t -> outcome CafeResponse.t * list Cafe.t :=
  route CafeResponse_validate (random_cafe seed).

(** [@app.get("/all", response_model=List[CafeResponse])] *)
Definition GET_all : list Cafe.t -> outcome (list CafeResponse.t) * list Cafe.t :=
  route (mapM CafeResponse_validate) all_cafe.

(** [@app.get("/search", response_model=List[CafeResponse])] *)
Definition GET_search (loc : string) : list Cafe.t -> outcome (list CafeResponse.t) * list Cafe.t :=
  route (mapM CafeResponse_validate) (find_cafe loc).

(** [@app.post("/add", response_model=CafeResponse)] *)
Definition POST_add (rowids : nat -> Z) (body : Body.t) (database : list Cafe.t) : outcome CafeResponse.t * list Cafe.t :=
  match CafeCreate_validate body with
  | None => (Raise RequestValidationError, database)
  | Some cafe => route CafeResponse_validate (add_cafe rowids cafe) database
  end.

(** [@app.patch("/update-price/{cafe_id}", response_model=CafeResponse)] *)
Definition PATCH_update_price (cafe_id : Z) (new_price : string) : list Cafe.t -> outcome CafeResponse.t * list Cafe.t :=
  route CafeResponse_validate (update_price cafe_id new_price).

(** [@app.delete("/report-closed/{cafe_id}", response_model=dict)] *)
Definition DELETE_report_closed (cafe_id : Z) (api_key : string) : list Cafe.t -> outcome (list (string * string)) * list Cafe.t :=
  route Some (delete_cafe cafe_id api_key).

(** ** Well-formed stores *)

(** Every key of the table is a 64-bit integer. *)
Definition int64_keys (t : list Cafe.t) : Prop :=
  forall c, c ∈ t -> int64 (Cafe.id c).

(** What the table's constraints guarantee: primary keys increase along the
    rowid order, and no two rows share a [name]. *)
Definition wf_store (t : list Cafe.t) : Prop :=
  StronglySorted Z.lt (Cafe.id <$> t) ∧ NoDup (Cafe.name <$> t).

(** Every row carries a [coffee_price]. *)
Definition priced (t : list Cafe.t) : Prop :=
  Forall (fun c => is_Some (Cafe.coffee_price c)) t.

(** Two rows that agree on every column but [coffee_price]. *)
Definition same_but_price (c c' : Cafe.t) : Prop :=
  Cafe.id c' = Cafe.id c ∧ Cafe.name c' = Cafe.name c ∧
  Cafe.map_url c' = Cafe.map_url c ∧ Cafe.img_url c' = Cafe.img_url c ∧
  Cafe.location c' = Cafe.location c ∧ Cafe.seats c' = Cafe.seats c ∧
  Cafe.has_toilet c' = Cafe.has_toilet c ∧ Cafe.has_wifi c' = Cafe.has_wifi c ∧
  Cafe.has_sockets c' = Cafe.has_sockets c ∧
  Cafe.can_take_calls c' = Cafe.can_take_calls c.


(** The nine fields of a body other than [coffee_price] are present. *)
Definition required_present (body : Body.t) : Prop :=
  is_Some (Body.name body) ∧ is_Some (Body.map_url body) ∧
  is_Some (Body.img_url body) ∧ is_Some (Body.location body) ∧
  is_Some (Body.seats body) ∧ is_Some (Body.has_toilet body) ∧
  is_Some (Body.has_wifi body) ∧ is_Some (Body.has_sockets body) ∧
  is_Some (Body.can_take_calls body).

(** ** Sample data *)

Definition soho : CafeBase.t :=
  CafeBase.mk "Mare Street Market" "https://maps.example/1" "https://img.example/1.jpg"
    "Soho" "20-30" true true false true "2.80".

Definition peckham : CafeBase.t :=
  CafeBase.mk "Old Spike" "https://maps.example/2" "https://img.example/2.jpg"
    "Peckham" "0-10" false true true false "2.40".

Definition quoted : CafeBase.t :=
  CafeBase.mk "Quote Corner" "https://maps.example/3" "https://img.example/3.jpg"
    "'Soho'" "10-20" true false true true "3.10".

Definition sample_db : list Cafe.t :=
  [Cafe_row 1 soho; Cafe_row 2 peckham].

(** A row as a table filled by another program may hold it: the nullable
    column is NULL. *)
Definition legacy_row : Cafe.t :=
  Cafe.mk 7 "Corner Roasters" "https://maps.example/7" "https://img.example/7.jpg"
    "Hackney" "30-40" true true true false None.

(** A table whose largest key is the largest 64-bit integer. *)
Definition saturated_db : list Cafe.t :=
  [Cafe_row 1 soho; Cafe_row max_int64 peckham].

(** Random numbers of an engine: [draws r] draws [r] every time. *)
Definition draws (r : Z) : nat -> Z := fun _ => r.

Definition body_of (f : CafeBase.t) : Body.t :=
  Body.mk (Some (CafeBase.name f)) (Some (CafeBase.map_url f)) (Some (CafeBase.img_url f))
    (Some (CafeBase.location f)) (Some (CafeBase.seats f)) (Some (CafeBase.has_toilet f))
    (Some (CafeBase.has_wifi f)) (Some (CafeBase.has_sockets f))
    (Some (CafeBase.can_take_calls f)) (Some (CafeBase.coffee_price f)).

Definition without_coffee_price (b : Body.t) : Body.t :=
  Body.mk (Body.name b) (Body.map_url b) (Body.img_url b) (Body.location b)
    (Body.seats b) (Body.has_toilet b) (Body.has_wifi b) (Body.has_sockets b)
    (Body.can_take_calls b) None.

(** ** The application *)

(** A request to one of the seven routes of [app].  [skip] and [limit] may be
    left out of the query ([skip: int = 0, limit: int = 10]); the other
    parameters are required.  [seed] and [rowids] are the random numbers
    drawn while the request is served. *)
Inductive request : Type :=
| Get_root (skip limit : option Z)
| Get_random (seed : nat)
| Get_all
| Get_search (loc : string)
| Post_add (rowids : nat -> Z) (body : Body.t)
| Patch_update_price (cafe_id : Z) (new_price : string)
| Delete_report_closed (cafe_id : Z) (api_key : string).

(** The status of the reply to a request and the database it leaves. *)
Definition serve (req : request) (database : list Cafe.t) : Z * list Cafe.t :=
  match req with
  | Get_root skip limit =>
      let '(r, database') := GET_root (default 0 skip) (default 10 limit) database in
      (status_code r, database')
  | Get_random seed =>
      let '(r, database') := GET_random seed database in (status_code r, database')
  | Get_all =>
      let '(r, database') := GET_all database in (status_code r, database')
  | Get_search loc =>
      let '(r, database') := GET_search loc database in (status_code r, database')
  | Post_add rowids body =>
      let '(r, database') := POST_add rowids body database in (status_code r, database')
  | Patch_update_price cafe_id new_price =>
      let '(r, database') := PATCH_update_price cafe_id new_price database in
      (status_code r, database')
  | Delete_report_closed cafe_id api_key =>
      let '(r, database') := DELETE_report_closed cafe_id api_key database in
      (status_code r, database')
  end.


(** The database after a sequence of requests, served one after the other. *)
Definition serve_all (reqs : list request) (database : list Cafe.t) : list Cafe.t :=
  foldl (fun db req => (serve req db).2) database reqs.

(** ** What each handler computes *)

Ltac int64_lia := unfold int64, min_int64, max_int64 in *; lia.

Section runs.
Implicit Types (db : list Cafe.t) (c : Cafe.t).

Lemma get_db_read_cafes skip limit db :
  get_db (read_cafes skip limit) db =
    (if decide (int64 skip /\ int64 limit)
     then Return (sql_limit limit (sql_offset skip db))
     else Raise OverflowError, db).
Proof.
  unfold get_db, read_cafes, select_offset_limit, bind, bind_param.
  destruct (decide (int64 skip)) as [Hs|Hs]; simpl.
  - destruct (decide (int64 limit)) as [Hl|Hl]; simpl.
    + rewrite decide_True by tauto. reflexivity.
    + rewrite decide_False by tauto. reflexivity.
  - rewrite decide_False by tauto. reflexivity.
Qed.

Lemma get_db_read_cafes_int64 skip limit db :
  int64 skip -> int64 limit ->
  get_db (read_cafes skip limit) db = (Return (sql_limit limit (sql_offset skip db)), db).
Proof. intros Hs Hl. rewrite get_db_read_cafes, decide_True by tauto. reflexivity. Qed.

Lemma get_db_all_cafe db : get_db all_cafe db = (Return db, db).
Proof. reflexivity. Qed.

Lemma get_db_random_cafe seed db :
  get_db (random_cafe seed) db =
    (match db with
     | [] => Raise (HTTPException 404 "No cafes available")
     | _ => match random_choice seed db with
            | Some c => Return c
            | None => Raise IndexError
            end
     end, db).
Proof.
  unfold get_db, random_cafe, bind, select_all; simpl.
  destruct db as [|r db]; [reflexivity|].
  destruct (random_choice seed (r :: db)); reflexivity.
Qed.

Lemma get_db_find_cafe loc db :
  get_db (find_cafe loc) db =
    (match filter (fun c => Cafe.location c = strip quote_chars loc) db with
     | [] => Raise (HTTPException 404 "Sorry, we don't have a cafe at the location")
     | c :: cafes => Return (c :: cafes)
     end, db).
Proof.
  unfold get_db, find_cafe, bind, select_where_location; simpl.
  destruct (filter _ db); reflexivity.
Qed.

Lemma random_choice_elem_of {A} seed (l : list A) :
  l ≠ [] -> exists x, random_choice seed l = Some x /\ x ∈ l.
Proof.
  intros Hne. unfold random_choice, randbelow.
  assert (Hlen : (0 < length l)%nat) by (destruct l; [congruence | simpl; lia]).
  destruct (lookup_lt_is_Some_2 l (seed mod length l)%nat) as [x Hx].
  - apply Nat.mod_upper_bound. lia.
  - exists x. split; [exact Hx | eapply list_elem_of_lookup_2; exact Hx].
Qed.

Lemma random_choice_any {A} (l : list A) x :
  x ∈ l -> exists seed, random_choice seed l = Some x.
Proof.
  intros [i Hi]%list_elem_of_lookup_1. exists i.
  unfold random_choice, randbelow.
  rewrite Nat.mod_small; [exact Hi | eapply lookup_lt_Some; exact Hi].
Qed.

End runs.

Section rowids.
Implicit Types (db : list Cafe.t) (c row : Cafe.t).

Lemma max_rowid_spec db m :
  max_rowid db = Some m ->
  (exists c, c ∈ db /\ Cafe.id c = m) /\ forall c, c ∈ db -> Cafe.id c <= m.
Proof.
  destruct db as [|r0 db]; [discriminate|]. simpl. intros [= <-].
  induction db as [|r db IH]; simpl.
  - split; [exists r0; split; [apply elem_of_cons; auto | reflexivity]|].
    intros c ->%list_elem_of_singleton. lia.
  - destruct IH as [(c & Hc & Hm) Hall]. split.
    + destruct (Z.max_spec (Cafe.id r)
                  (foldr (fun r1 m => Z.max (Cafe.id r1) m) (Cafe.id r0) db)) as [[_ ->]|[_ ->]].
      * exists c. split; [|exact Hm].
        apply elem_of_cons in Hc as [->|Hc]; rewrite !elem_of_cons; auto.
      * exists r. split; [|reflexivity]. rewrite !elem_of_cons; auto.
    + intros c' Hc'. apply elem_of_cons in Hc' as [->|Hc'].
      * specialize (Hall r0). rewrite elem_of_cons in Hall. specialize (Hall (or_introl eq_refl)). lia.
      * apply elem_of_cons in Hc' as [->|Hc']; [lia|].
        specialize (Hall c'). rewrite elem_of_cons in Hall. specialize (Hall (or_intror Hc')). lia.
Qed.

Lemma max_rowid_None db : max_rowid db = None <-> db = [].
Proof. destruct db; simpl; split; congruence. Qed.

Lemma random_rowid_range r : 1 <= random_rowid r <= 2 ^ 62.
Proof.
  unfold random_rowid. rewrite Z.land_ones by lia.
  pose proof (Z.mod_pos_bound r (2 ^ 62) ltac:(lia)). lia.
Qed.

Lemma new_rowid_fresh rowids db pk :
  new_rowid rowids db = Some pk -> pk ∉ Cafe.id <$> db.
Proof.
  unfold new_rowid. destruct (max_rowid db) as [m|] eqn:Em.
  - destruct (max_rowid_spec db m Em) as [_ Hall].
    destruct (decide (m < max_int64)).
    + intros [= <-] (c & E & Hc)%list_elem_of_fmap_1. specialize (Hall c Hc). lia.
    + intros H. apply head_Some_elem_of in H.
      apply list_elem_of_filter in H as [H _]. exact H.
  - apply max_rowid_None in Em. subst db. intros _. apply not_elem_of_nil.
Qed.

(** Below the largest 64-bit key the engine counts. *)
Lemma new_rowid_next rowids db :
  (forall c, c ∈ db -> Cafe.id c < max_int64) ->
  exists pk, new_rowid rowids db = Some pk /\
    (db = [] -> pk = 1) /\
    (db ≠ [] -> exists c, c ∈ db /\ pk = Cafe.id c + 1) /\
    (forall c, c ∈ db -> Cafe.id c < pk).
Proof.
  intros Hbelow. unfold new_rowid. destruct (max_rowid db) as [m|] eqn:Em.
  - destruct (max_rowid_spec db m Em) as [(c & Hc & Hm) Hall].
    rewrite decide_True by (rewrite <- Hm; auto).
    exists (m + 1). split; [reflexivity|]. split; [intros ->; inversion Hc|].
    split; [intros _; exists c; split; [exact Hc | lia]|].
    intros c' Hc'. specialize (Hall c' Hc'). lia.
  - apply max_rowid_None in Em. subst db. exists 1.
    split; [reflexivity|]. split; [reflexivity|].
    split; [congruence | intros c Hc; inversion Hc].
Qed.

(** At the largest 64-bit key the engine draws. *)
Lemma new_rowid_drawn rowids db c pk :
  c ∈ db -> max_int64 <= Cafe.id c ->
  new_rowid rowids db = Some pk ->
  exists i, (i < rowid_attempts)%nat /\ pk = random_rowid (rowids i).
Proof.
  intros Hc Hmax. unfold new_rowid. destruct (max_rowid db) as [m|] eqn:Em.
  - destruct (max_rowid_spec db m Em) as [_ Hall]. specialize (Hall c Hc).
    rewrite decide_False by lia. intros H. apply head_Some_elem_of in H.
    apply list_elem_of_filter in H as [_ H].
    apply list_elem_of_fmap_1 in H as (i & -> & Hi).
    exists i. split; [|reflexivity]. apply elem_of_seq in Hi. lia.
  - apply max_rowid_None in Em. subst db. inversion Hc.
Qed.

Lemma new_rowid_int64 rowids db pk :
  int64_keys db -> new_rowid rowids db = Some pk -> int64 pk.
Proof.
  intros Hkeys Hpk. unfold new_rowid in Hpk.
  destruct (max_rowid db) as [m|] eqn:Em.
  - destruct (max_rowid_spec db m Em) as [(c & Hc & Hm) _].
    specialize (Hkeys c Hc). destruct (decide (m < max_int64)) as [Hlt|Hsat].
    + injection Hpk as <-. int64_lia.
    + apply head_Some_elem_of, list_elem_of_filter in Hpk as [_ Hpk].
      apply list_elem_of_fmap_1 in Hpk as (i & -> & _).
      pose proof (random_rowid_range (rowids i)). int64_lia.
  - injection Hpk as <-. int64_lia.
Qed.

Lemma insert_by_rowid_split row db :
  exists pre post,
    db = pre ++ post /\ insert_by_rowid row db = pre ++ row :: post /\
    (forall c, c ∈ pre -> Cafe.id c <= Cafe.id row).
Proof.
  induction db as [|r db IH]; simpl.
  - exists [], []. split; [reflexivity|]. split; [reflexivity|]. intros c Hc; inversion Hc.
  - destruct (decide (Cafe.id row < Cafe.id r)) as [Hlt|Hge].
    + exists [], (r :: db). split; [reflexivity|]. split; [reflexivity|].
      intros c Hc; inversion Hc.
    + destruct IH as (pre & post & -> & -> & Hpre).
      exists (r :: pre), post. split; [reflexivity|]. split; [reflexivity|].
      intros c [->|Hc]%elem_of_cons; [lia | auto].
Qed.


Lemma insert_by_rowid_Permutation row db : insert_by_rowid row db ≡ₚ row :: db.
Proof.
  destruct (insert_by_rowid_split row db) as (pre & post & -> & -> & _).
  symmetry. apply Permutation_middle.
Qed.

Lemma elem_of_insert_by_rowid row db c :
  c ∈ insert_by_rowid row db <-> c = row \/ c ∈ db.
Proof. rewrite insert_by_rowid_Permutation. apply elem_of_cons. Qed.

Lemma first_by_id_None cafe_id db :
  head (filter (fun r => Cafe.id r = cafe_id) db) = None <->
  cafe_id ∉ Cafe.id <$> db.
Proof.
  induction db as [|r db IH]; simpl.
  - split; [intros _; apply not_elem_of_nil | reflexivity].
  - rewrite filter_cons. destruct (decide (Cafe.id r = cafe_id)) as [E|E]; simpl.
    + split; [discriminate | intros H; exfalso; apply H; apply elem_of_cons; left; congruence].
    + rewrite IH, not_elem_of_cons. split; [intros H; split; [congruence | exact H] | intros [_ H]; exact H].
Qed.

Lemma first_by_id_inserted row db :
  Cafe.id row ∉ Cafe.id <$> db ->
  head (filter (fun r => Cafe.id r = Cafe.id row) (insert_by_rowid row db)) = Some row.
Proof.
  intros Hfresh.
  destruct (insert_by_rowid_split row db) as (pre & post & -> & -> & _).
  rewrite fmap_app, elem_of_app in Hfresh.
  assert (Hpre : Cafe.id row ∉ Cafe.id <$> pre) by tauto.
  apply first_by_id_None in Hpre. rewrite filter_app.
  destruct (filter _ pre); [|discriminate Hpre].
  simpl. rewrite filter_cons_True by reflexivity. reflexivity.
Qed.

End rowids.

Section writes.
Implicit Types (db : list Cafe.t) (c : Cafe.t).

Lemma first_by_id_Some cafe_id db c :
  head (filter (fun r => Cafe.id r = cafe_id) db) = Some c ->
  Cafe.id c = cafe_id /\ c ∈ db.
Proof.
  intros H. apply head_Some_elem_of in H.
  apply list_elem_of_filter in H. exact H.
Qed.

Lemma first_by_id_is_Some cafe_id db :
  cafe_id ∈ Cafe.id <$> db ->
  exists c, head (filter (fun r => Cafe.id r = cafe_id) db) = Some c.
Proof.
  intros Hin. destruct (head _) as [c|] eqn:E; [eauto|].
  apply first_by_id_None in E. contradiction.
Qed.

Lemma first_by_id_update cafe_id p db c :
  head (filter (fun r => Cafe.id r = cafe_id) db) = Some c ->
  head (filter (fun r => Cafe.id r = cafe_id) (sql_update (cafe_id, p) db))
    = Some (set_coffee_price p c).
Proof.
  unfold sql_update; simpl. induction db as [|r db IH]; simpl; [discriminate|].
  rewrite !filter_cons.
  destruct (decide (Cafe.id r = cafe_id)) as [E|E]; simpl.
  - rewrite decide_True by exact E. simpl. congruence.
  - rewrite decide_False by exact E. exact IH.
Qed.

Lemma get_db_add_cafe rowids cafe db :
  get_db (add_cafe rowids cafe) db =
    match new_rowid rowids db with
    | None => (Raise OperationalError, db)
    | Some pk =>
        if decide (CafeBase.name cafe ∈ Cafe.name <$> db)
        then (Raise IntegrityError, db)
        else (Return (Cafe_row pk cafe), insert_by_rowid (Cafe_row pk cafe) db)
    end.
Proof.
  unfold get_db, add_cafe, bind, db_add, db_commit, SessionLocal; simpl.
  unfold sql_insert. destruct (new_rowid rowids db) as [pk|] eqn:Epk; [|reflexivity].
  destruct (decide _) as [Hdup|Hnew]; simpl; [reflexivity|].
  unfold db_refresh; simpl.
  pose proof (first_by_id_inserted (Cafe_row pk cafe) db (new_rowid_fresh _ _ _ Epk)) as Hrow.
  change (Cafe.id (Cafe_row pk cafe)) with pk in Hrow. rewrite Hrow. reflexivity.
Qed.

Lemma get_db_update_price cafe_id new_price db :
  get_db (update_price cafe_id new_price) db =
    if decide (int64 cafe_id) then
      match head (filter (fun r => Cafe.id r = cafe_id) db) with
      | None => (Raise (HTTPException 404 "Cafe not found"), db)
      | Some c => (Return (set_coffee_price new_price c), sql_update (cafe_id, new_price) db)
      end
    else (Raise OverflowError, db).
Proof.
  unfold get_db, update_price, bind, query_filter_id_first, bind_param, SessionLocal.
  destruct (decide (int64 cafe_id)); simpl; [|reflexivity].
  destruct (head _) as [c|] eqn:E; simpl; [|reflexivity].
  destruct (first_by_id_Some _ _ _ E) as [Eid _]. rewrite Eid.
  unfold db_refresh; simpl.
  rewrite (first_by_id_update cafe_id new_price db c E). reflexivity.
Qed.

Lemma get_db_delete_cafe cafe_id api_key db :
  get_db (delete_cafe cafe_id api_key) db =
    if decide (api_key ≠ "TopSecretAPIKey")
    then (Raise (HTTPException 403 "Forbidden: Invalid API Key"), db)
    else if decide (int64 cafe_id) then
      match head (filter (fun r => Cafe.id r = cafe_id) db) with
      | None => (Raise (HTTPException 404 "Cafe not found"), db)
      | Some c =>
          (Return [("success", "Successfully deleted the cafe from the database.")],
           sql_delete cafe_id db)
      end
    else (Raise OverflowError, db).
Proof.
  unfold get_db, delete_cafe.
  destruct (decide _) as [Hkey|Hkey]; [reflexivity|].
  unfold bind, query_filter_id_first, bind_param, SessionLocal.
  destruct (decide (int64 cafe_id)); simpl; [|reflexivity].
  destruct (head _) as [c|] eqn:E; simpl; [|reflexivity].
  destruct (first_by_id_Some _ _ _ E) as [Eid _]. rewrite Eid. reflexivity.
Qed.

End writes.

(** ** [str.strip] *)

Section strip.
Variable chars : string.

Lemma lstrip_spec s :
  exists pre, s = pre +:+ lstrip chars s /\
    only_chars chars pre = true /\ starts_in chars (lstrip chars s) = false.
Proof.
  induction s as [|a s IH]; simpl.
  - exists EmptyString. split; [reflexivity | auto].
  - destruct (in_chars chars a) eqn:Ea.
    + destruct IH as (pre & E & Hpre & Hs).
      exists (String a pre). split; [change (String a s = String a (pre +:+ lstrip chars s)); congruence|].
      simpl. rewrite Ea, Hpre. auto.
    + exists EmptyString. split; [reflexivity|]. simpl. auto.
Qed.

Lemma rstrip_spec s :
  exists post, s = rstrip chars s +:+ post /\
    only_chars chars post = true /\ ends_in chars (rstrip chars s) = false.
Proof.
  induction s as [|a s IH]; simpl.
  - exists EmptyString. split; [reflexivity | auto].
  - destruct IH as (post & E & Hpost & He).
    destruct (rstrip chars s) as [|b r] eqn:Er.
    + change (s = post) in E. subst post. destruct (in_chars chars a) eqn:Ea.
      * exists (String a s). split; [reflexivity|]. simpl. rewrite Ea, Hpost. auto.
      * exists s. split; [reflexivity|]. simpl. rewrite Ea. auto.
    + exists post. split; [change (String a s = String a (String b r +:+ post)); congruence|].
      auto.
Qed.

Lemma rstrip_starts_in s :
  starts_in chars s = false -> starts_in chars (rstrip chars s) = false.
Proof.
  destruct s as [|a s]; simpl; [auto|]. intros Ha.
  destruct (rstrip chars s); [rewrite Ha|]; simpl; auto.
Qed.

Lemma lstrip_id s : starts_in chars s = false -> lstrip chars s = s.
Proof. destruct s as [|a s]; simpl; [auto | intros ->; reflexivity]. Qed.

Lemma rstrip_id s : ends_in chars s = false -> rstrip chars s = s.
Proof.
  induction s as [|a s IH]; simpl; [auto|].
  destruct s as [|b s].
  - simpl. intros ->. reflexivity.
  - intros H. rewrite (IH H). reflexivity.
Qed.

Lemma strip_spec s :
  exists pre post, s = pre +:+ strip chars s +:+ post /\
    only_chars chars pre = true /\ only_chars chars post = true /\
    starts_in chars (strip chars s) = false /\ ends_in chars (strip chars s) = false.
Proof.
  unfold strip.
  destruct (lstrip_spec s) as (pre & E1 & Hpre & Hs).
  destruct (rstrip_spec (lstrip chars s)) as (post & E2 & Hpost & He).
  exists pre, post. split; [|auto using rstrip_starts_in].
  rewrite <- E2. exact E1.
Qed.

Lemma strip_id s :
  starts_in chars s = false -> ends_in chars s = false -> strip chars s = s.
Proof. intros Hs He. unfold strip. rewrite (lstrip_id s Hs). exact (rstrip_id s He). Qed.

End strip.

(** ** The read operations *)

Section reads.
Implicit Types (db : list Cafe.t) (c : Cafe.t).

Lemma rows_distinct db : NoDup (Cafe.id <$> db) -> NoDup db.
Proof. apply NoDup_fmap_1. Qed.

Lemma wf_store_rows_distinct db : wf_store db -> NoDup (Cafe.id <$> db).
Proof.
  intros [Hsorted _]. induction Hsorted as [|k ks Hs IH Hall]; constructor; [|exact IH].
  intros Hin. rewrite Forall_forall in Hall. specialize (Hall k Hin). lia.
Qed.

Lemma page_skips_prefix db (n m : nat) c :
  NoDup db -> c ∈ take n db -> c ∉ take m (drop n db).
Proof.
  intros Hnd Hpre Hpage.
  apply elem_of_take in Hpre as (i & Hi & Hlt).
  apply elem_of_take in Hpage as (j & Hj & _).
  rewrite lookup_drop in Hj.
  pose proof (NoDup_lookup db i (n + j)%nat c Hnd Hi Hj). lia.
Qed.

(** C6 as the code has it.  For [skip] from 0 and [limit] from 1, both up to
    the largest 64-bit integer, List raises nothing and leaves the store
    alone; it returns at most [limit] rows, namely the rows at positions
    [skip], [skip + 1], ... of the store in store order (none when [skip] is
    past the end), and, rows being told apart by their primary keys, none of
    the first [skip] rows.  When [skip] or [limit] is outside the signed
    64-bit range, binding it raises [OverflowError]: the reply is 500 and
    the store is as before. *)
Theorem read_cafes_page (skip limit : Z) db :
  (0 <= skip <= max_int64 -> 0 < limit <= max_int64 ->
   exists cafes,
     get_db (read_cafes skip limit) db = (Return cafes, db) /\
     Z.of_nat (length cafes) <= limit /\
     length cafes = Nat.min (Z.to_nat limit) (length db - Z.to_nat skip) /\
     (forall i : nat, Z.of_nat i < limit -> cafes !! i = db !! (Z.to_nat skip + i)%nat) /\
     (forall i : nat, limit <= Z.of_nat i -> cafes !! i = None) /\
     (Z.of_nat (length db) <= skip -> cafes = []) /\
     (NoDup (Cafe.id <$> db) -> forall c, c ∈ take (Z.to_nat skip) db -> c ∉ cafes)) /\
  (~ (int64 skip /\ int64 limit) ->
   get_db (read_cafes skip limit) db = (Raise OverflowError, db) /\
   GET_root skip limit db = (Raise OverflowError, db) /\
   status_code (GET_root skip limit db).1 = 500).
Proof.
  split.
  - intros Hskip Hlimit. rewrite get_db_read_cafes_int64 by int64_lia.
    unfold sql_limit, sql_offset. rewrite decide_False by lia.
    eexists. split; [reflexivity|].
    assert (Hlen : length (take (Z.to_nat limit) (drop (Z.to_nat skip) db))
                   = Nat.min (Z.to_nat limit) (length db - Z.to_nat skip)).
    { rewrite length_take, length_drop. reflexivity. }
    split; [rewrite Hlen; lia|]. split; [exact Hlen|].
    split; [|split; [|split]].
    + intros i Hi. rewrite lookup_take_lt by lia. apply lookup_drop.
    + intros i Hi. apply lookup_take_ge. lia.
    + intros Hpast. apply length_zero_iff_nil. rewrite Hlen. lia.
    + intros Hnd c. apply page_skips_prefix, rows_distinct, Hnd.
  - intros Hout. unfold GET_root, route.
    rewrite get_db_read_cafes, decide_False by exact Hout. repeat split.
Qed.

Lemma read_cafes_page_witness :
  0 <= 1 <= max_int64 /\ 0 < 10 <= max_int64 /\
  ~ (int64 (max_int64 + 1) /\ int64 10) /\
  (exists cafes,
     get_db (read_cafes 1 10) sample_db = (Return cafes, sample_db) /\
     Z.of_nat (length cafes) <= 10 /\
     NoDup (Cafe.id <$> sample_db) /\
     (forall c, c ∈ take (Z.to_nat 1) sample_db -> c ∉ cafes)) /\
  get_db (read_cafes (max_int64 + 1) 10) sample_db = (Raise OverflowError, sample_db).
Proof.
  assert (H1 : 0 <= 1 <= max_int64) by int64_lia.
  assert (H10 : 0 < 10 <= max_int64) by int64_lia.
  assert (Hout : ~ (int64 (max_int64 + 1) /\ int64 10)) by int64_lia.
  split; [exact H1|]. split; [exact H10|]. split; [exact Hout|]. split.
  - destruct (read_cafes_page 1 10 sample_db) as [Hpage _].
    destruct (Hpage H1 H10) as (cafes & Hrun & Hlen & _ & _ & _ & _ & Hskip).
    assert (Hnd : NoDup (Cafe.id <$> sample_db)).
    { change (NoDup [1; 2]). apply NoDup_cons. split; [|apply NoDup_singleton].
      intros H. apply list_elem_of_singleton in H. discriminate H. }
    exists cafes. split; [exact Hrun|]. split; [exact Hlen|].
    split; [exact Hnd | exact (Hskip Hnd)].
  - destruct (read_cafes_page (max_int64 + 1) 10 sample_db) as [_ Hover].
    apply (Hover Hout).
Defined.

(** C6 as stated fails: this [skip] is not negative and this [limit] is
    positive, and List raises [OverflowError]; the reply is 500. *)
Lemma read_cafes_raises_past_int64 :
  0 <= max_int64 + 1 /\ 0 < 10 /\
  get_db (read_cafes (max_int64 + 1) 10) sample_db = (Raise OverflowError, sample_db) /\
  status_code (GET_root (max_int64 + 1) 10 sample_db).1 = 500.
Proof.
  split; [int64_lia|]. split; [lia|]. split; reflexivity.
Qed.

(** C5.  Random leaves the store alone; it fails with 404 exactly when the
    store is empty and otherwise returns a row of the store. *)
Theorem random_cafe_not_found_iff_empty (seed : nat) db :
  (get_db (random_cafe seed) db).2 = db /\
  ((exists detail, (get_db (random_cafe seed) db).1 = Raise (HTTPException 404 detail))
     <-> db = []) /\
  (db = [] \/ exists c, (get_db (random_cafe seed) db).1 = Return c /\ c ∈ db).
Proof.
  rewrite get_db_random_cafe; simpl. split; [reflexivity|].
  destruct db as [|r db].
  - split; [|left; reflexivity].
    split; [reflexivity | eauto].
  - destruct (random_choice_elem_of seed (r :: db)) as (c & -> & Hc); [discriminate|].
    split; [|right; eauto].
    split; [intros [detail H]; discriminate H | discriminate].
Qed.

(** Every row of the store is the answer of Random for some state of the
    generator. *)
Lemma random_cafe_any db c :
  c ∈ db -> exists seed, get_db (random_cafe seed) db = (Return c, db).
Proof.
  intros Hc. destruct (random_choice_any db c Hc) as [seed H]. exists seed.
  rewrite get_db_random_cafe, H. destruct db; [inversion Hc | reflexivity].
Qed.

(** C3.  Search compares [location] with [loc] stripped of the quote
    characters around it ([loc] is that key between two runs of quote
    characters, and the key neither starts nor ends with one).  It returns
    the rows of the store whose [location] is equal to the key, all of them
    and no others, in store order, and fails with 404 exactly when there is
    no such row; the store is left alone. *)
Theorem find_cafe_exact_location (loc : string) db :
  let key := strip quote_chars loc in
  (exists pre post, loc = pre +:+ key +:+ post /\
     only_chars quote_chars pre = true /\ only_chars quote_chars post = true /\
     starts_in quote_chars key = false /\ ends_in quote_chars key = false) /\
  (get_db (find_cafe loc) db).2 = db /\
  ((exists detail, (get_db (find_cafe loc) db).1 = Raise (HTTPException 404 detail))
     <-> forall c, c ∈ db -> Cafe.location c ≠ key) /\
  ((forall c, c ∈ db -> Cafe.location c ≠ key) \/
   exists cafes, (get_db (find_cafe loc) db).1 = Return cafes /\
     cafes = filter (fun c => Cafe.location c = key) db /\
     cafes `sublist_of` db /\
     forall c, c ∈ cafes <-> c ∈ db /\ Cafe.location c = key).
Proof.
  intros key. split; [apply strip_spec|].
  rewrite get_db_find_cafe; simpl. split; [reflexivity|]. fold key.
  destruct (filter (fun c => Cafe.location c = key) db) as [|r rs] eqn:E.
  - assert (Hnone : forall c, c ∈ db -> Cafe.location c ≠ key).
    { intros c Hc Hloc. eapply filter_nil_not_elem_of; [exact E | exact Hloc | exact Hc]. }
    split; [|left; exact Hnone].
    split; [intros _; exact Hnone | eauto].
  - split.
    + split; [intros [detail H]; discriminate H|].
      intros Hnone. exfalso.
      assert (Hr : r ∈ filter (fun c => Cafe.location c = key) db)
        by (rewrite E; apply elem_of_cons; left; reflexivity).
      apply list_elem_of_filter in Hr as [Hloc Hr]. exact (Hnone r Hr Hloc).
    + right. exists (r :: rs). rewrite <- E.
      split; [reflexivity|]. split; [reflexivity|].
      split; [apply sublist_filter|].
      intros c. rewrite list_elem_of_filter. tauto.
Qed.

(** Search tells upper case from lower case. *)
Example find_cafe_case_sensitive :
  get_db (find_cafe "soho") sample_db
    = (Raise (HTTPException 404 "Sorry, we don't have a cafe at the location"), sample_db)
  /\ get_db (find_cafe "'Soho'") sample_db = (Return [Cafe_row 1 soho], sample_db).
Proof. split; reflexivity. Qed.

(** C10.  List, Random, All and Search hand the store back as they found
    it, whether they return or raise; so do their routes. *)
Theorem reads_leave_store_unchanged db :
  (forall skip limit, (get_db (read_cafes skip limit) db).2 = db /\ (GET_root skip limit db).2 = db) /\
  (forall seed, (get_db (random_cafe seed) db).2 = db /\ (GET_random seed db).2 = db) /\
  ((get_db all_cafe db).2 = db /\ (GET_all db).2 = db) /\
  (forall loc, (get_db (find_cafe loc) db).2 = db /\ (GET_search loc db).2 = db).
Proof.
  unfold GET_root, GET_random, GET_all, GET_search, route.
  split; [|split; [|split]]; intros.
  - rewrite get_db_read_cafes. split; reflexivity.
  - rewrite get_db_random_cafe. split; reflexivity.
  - rewrite get_db_all_cafe. split; reflexivity.
  - rewrite get_db_find_cafe. split; reflexivity.
Qed.

End reads.

(** ** The write operations *)

Section updates.
Implicit Types (db : list Cafe.t) (c : Cafe.t).

Lemma set_coffee_price_same_but_price p c : same_but_price c (set_coffee_price p c).
Proof. unfold same_but_price. simpl. tauto. Qed.

Lemma elem_of_page skip limit db c :
  c ∈ sql_limit limit (sql_offset skip db) -> c ∈ db.
Proof.
  unfold sql_limit, sql_offset. intros H.
  assert (Hd : c ∈ drop (Z.to_nat skip) db).
  { destruct (decide (limit < 0)); [exact H|].
    apply elem_of_take in H as (i & Hi & _). eapply list_elem_of_lookup_2, Hi. }
  apply list_elem_of_lookup_1 in Hd as [i Hi]. rewrite lookup_drop in Hi.
  eapply list_elem_of_lookup_2, Hi.
Qed.

(** C2 as the code has it.  Update-price on a key of the store returns the
    row of that key with [coffee_price] set to [new_price] and every other
    column as it was; the store keeps its length and order, each row of
    another key is untouched and a row of this key differs from what it was
    in [coffee_price] only.  On a 64-bit key that is not in the store it
    fails with 404 and the store is as before.  On a [cafe_id] outside the
    signed 64-bit range, binding it raises [OverflowError]: the reply is 500
    and the store is as before. *)
Theorem update_price_frame (cafe_id : Z) (new_price : string) db :
  (cafe_id ∈ Cafe.id <$> db -> int64 cafe_id ->
   exists c c',
     c ∈ db /\ Cafe.id c = cafe_id /\
     (get_db (update_price cafe_id new_price) db).1 = Return c' /\
     same_but_price c c' /\ Cafe.coffee_price c' = Some new_price /\
     c' ∈ (get_db (update_price cafe_id new_price) db).2 /\
     length (get_db (update_price cafe_id new_price) db).2 = length db /\
     forall (i : nat) row, db !! i = Some row ->
       (Cafe.id row ≠ cafe_id ->
          (get_db (update_price cafe_id new_price) db).2 !! i = Some row) /\
       (Cafe.id row = cafe_id ->
          exists row', (get_db (update_price cafe_id new_price) db).2 !! i = Some row' /\
            same_but_price row row' /\ Cafe.coffee_price row' = Some new_price)) /\
  (cafe_id ∉ Cafe.id <$> db -> int64 cafe_id ->
   get_db (update_price cafe_id new_price) db
     = (Raise (HTTPException 404 "Cafe not found"), db)) /\
  (~ int64 cafe_id ->
   get_db (update_price cafe_id new_price) db = (Raise OverflowError, db) /\
   status_code (PATCH_update_price cafe_id new_price db).1 = 500).
Proof.
  unfold PATCH_update_price, route. rewrite get_db_update_price. split; [|split].
  - intros Hin H64. rewrite decide_True by exact H64.
    destruct (first_by_id_is_Some _ _ Hin) as [c E]. rewrite E; simpl.
    destruct (first_by_id_Some _ _ _ E) as [Eid Hc].
    exists c, (set_coffee_price new_price c).
    split; [exact Hc|]. split; [exact Eid|]. split; [reflexivity|].
    split; [apply set_coffee_price_same_but_price|]. split; [reflexivity|].
    unfold sql_update; simpl. split; [|split].
    + apply list_elem_of_fmap. exists c. rewrite decide_True by exact Eid. auto.
    + apply length_fmap.
    + intros i row Hrow. rewrite list_lookup_fmap, Hrow; simpl. split.
      * intros Hne. rewrite decide_False by exact Hne. reflexivity.
      * intros He. rewrite decide_True by exact He.
        eexists. split; [reflexivity|].
        split; [apply set_coffee_price_same_but_price | reflexivity].
  - intros Hout H64. rewrite decide_True by exact H64.
    apply first_by_id_None in Hout. rewrite Hout. reflexivity.
  - intros Hover. rewrite decide_False by exact Hover. split; reflexivity.
Qed.

Lemma update_price_frame_witness :
  (2 ∈ Cafe.id <$> sample_db) /\ int64 2 /\
  (3 ∉ Cafe.id <$> sample_db) /\ int64 3 /\ ~ int64 (max_int64 + 1) /\
  (exists c c',
     c ∈ sample_db /\ Cafe.id c = 2 /\
     (get_db (update_price 2 "3.00") sample_db).1 = Return c' /\
     same_but_price c c' /\ Cafe.coffee_price c' = Some "3.00") /\
  get_db (update_price 3 "3.00") sample_db
    = (Raise (HTTPException 404 "Cafe not found"), sample_db) /\
  get_db (update_price (max_int64 + 1) "3.00") sample_db = (Raise OverflowError, sample_db).
Proof.
  assert (H2 : 2 ∈ Cafe.id <$> sample_db) by (vm_compute; apply elem_of_cons; right; apply elem_of_cons; left; reflexivity).
  assert (H3 : 3 ∉ Cafe.id <$> sample_db).
  { vm_compute. intros H. repeat (apply elem_of_cons in H as [H|H]; [discriminate H|]). inversion H. }
  assert (I2 : int64 2) by int64_lia. assert (I3 : int64 3) by int64_lia.
  assert (Iover : ~ int64 (max_int64 + 1)) by int64_lia.
  split; [exact H2|]. split; [exact I2|]. split; [exact H3|]. split; [exact I3|].
  split; [exact Iover|]. split; [|split].
  - destruct (update_price_frame 2 "3.00" sample_db) as [Hupd _].
    destruct (Hupd H2 I2) as (c & c' & Hc & Hid & Hret & Hsame & Hprice & _).
    exists c, c'. auto.
  - destruct (update_price_frame 3 "3.00" sample_db) as (_ & Hnot & _). exact (Hnot H3 I3).
  - destruct (update_price_frame (max_int64 + 1) "3.00" sample_db) as (_ & _ & Hover).
    apply (Hover Iover).
Defined.

(** C2 as stated fails: this [cafe_id] is the key of no row, and
    Update-price does not fail with 404 but raises [OverflowError]; the
    reply is 500. *)
Lemma update_price_raises_past_int64 :
  (max_int64 + 1 ∉ Cafe.id <$> sample_db) /\
  get_db (update_price (max_int64 + 1) "3.00") sample_db = (Raise OverflowError, sample_db) /\
  status_code (PATCH_update_price (max_int64 + 1) "3.00" sample_db).1 = 500.
Proof.
  split; [|split; reflexivity].
  vm_compute. intros H. repeat (apply elem_of_cons in H as [H|H]; [discriminate H|]). inversion H.
Qed.

(** C9.  With a wrong [api_key], Delete raises 403 and leaves the store
    alone, whatever [cafe_id] is: the key is compared before any row is
    looked up, so the answer is never 404. *)
Theorem delete_cafe_key_checked_first (cafe_id : Z) (api_key : string) db :
  api_key ≠ "TopSecretAPIKey" ->
  get_db (delete_cafe cafe_id api_key) db
    = (Raise (HTTPException 403 "Forbidden: Invalid API Key"), db) /\
  status_code (DELETE_report_closed cafe_id api_key db).1 = 403.
Proof.
  intros Hkey. unfold DELETE_report_closed, route.
  rewrite get_db_delete_cafe, decide_True by exact Hkey. split; reflexivity.
Qed.

Lemma delete_cafe_key_checked_first_witness :
  "topsecretapikey" ≠ "TopSecretAPIKey" /\ (7 ∉ Cafe.id <$> sample_db) /\
  get_db (delete_cafe 7 "topsecretapikey") sample_db
    = (Raise (HTTPException 403 "Forbidden: Invalid API Key"), sample_db).
Proof.
  split; [discriminate|]. split.
  - vm_compute. intros H. repeat (apply elem_of_cons in H as [H|H]; [discriminate H|]). inversion H.
  - apply (delete_cafe_key_checked_first 7 "topsecretapikey" sample_db). discriminate.
Defined.

(** C4 as the code has it.  Delete with a wrong [api_key] raises 403 and the
    store, the targeted row included, is as before.  With the right key and
    a key of the store it returns the success message and the store loses
    the rows of that key and no other, keeping its order: neither All nor
    List on the store it leaves returns a row of that key.  With the right
    key and a 64-bit key that is not in the store it raises 404 and the
    store is as before.  With the right key and a [cafe_id] outside the
    signed 64-bit range, binding it raises [OverflowError]: the reply is 500
    and the store is as before. *)
Theorem delete_cafe_cases (cafe_id : Z) (api_key : string) db :
  (api_key ≠ "TopSecretAPIKey" ->
   get_db (delete_cafe cafe_id api_key) db
     = (Raise (HTTPException 403 "Forbidden: Invalid API Key"), db)) /\
  (api_key = "TopSecretAPIKey" -> cafe_id ∈ Cafe.id <$> db -> int64 cafe_id ->
   exists db',
     get_db (delete_cafe cafe_id api_key) db
       = (Return [("success", "Successfully deleted the cafe from the database.")], db') /\
     db' `sublist_of` db /\
     (forall c, c ∈ db' <-> c ∈ db /\ Cafe.id c ≠ cafe_id) /\
     (forall cafes, (get_db all_cafe db').1 = Return cafes -> cafe_id ∉ Cafe.id <$> cafes) /\
     (forall skip limit cafes,
        (get_db (read_cafes skip limit) db').1 = Return cafes -> cafe_id ∉ Cafe.id <$> cafes)) /\
  (api_key = "TopSecretAPIKey" -> cafe_id ∉ Cafe.id <$> db -> int64 cafe_id ->
   get_db (delete_cafe cafe_id api_key) db
     = (Raise (HTTPException 404 "Cafe not found"), db)) /\
  (api_key = "TopSecretAPIKey" -> ~ int64 cafe_id ->
   get_db (delete_cafe cafe_id api_key) db = (Raise OverflowError, db) /\
   status_code (DELETE_report_closed cafe_id api_key db).1 = 500).
Proof.
  unfold DELETE_report_closed, route. rewrite get_db_delete_cafe.
  split; [|split; [|split]].
  - intros Hkey. rewrite decide_True by exact Hkey. reflexivity.
  - intros Hkey Hin H64. rewrite decide_False by (intros H; exact (H Hkey)).
    rewrite decide_True by exact H64.
    destruct (first_by_id_is_Some _ _ Hin) as [c ->].
    assert (Hmem : forall r, r ∈ sql_delete cafe_id db <-> r ∈ db /\ Cafe.id r ≠ cafe_id).
    { intros r. unfold sql_delete. rewrite list_elem_of_filter. tauto. }
    exists (sql_delete cafe_id db). split; [reflexivity|].
    split; [apply sublist_filter|]. split; [exact Hmem|]. split.
    + intros cafes. rewrite get_db_all_cafe; simpl. intros [= <-].
      intros (r & Er & Hr)%list_elem_of_fmap_1. apply Hmem in Hr as [_ Hr]. congruence.
    + intros skip limit cafes. rewrite get_db_read_cafes; simpl.
      destruct (decide _); [|discriminate]. intros [= <-].
      intros (r & Er & Hr)%list_elem_of_fmap_1.
      apply elem_of_page, Hmem in Hr as [_ Hr]. congruence.
  - intros Hkey Hout H64. rewrite decide_False by (intros H; exact (H Hkey)).
    rewrite decide_True by exact H64.
    apply first_by_id_None in Hout. rewrite Hout. reflexivity.
  - intros Hkey Hover. rewrite decide_False by (intros H; exact (H Hkey)).
    rewrite decide_False by exact Hover. split; reflexivity.
Qed.

Lemma delete_cafe_cases_witness :
  "TopSecretAPIKey" = "TopSecretAPIKey" /\ (1 ∈ Cafe.id <$> sample_db) /\ int64 1 /\
  (7 ∉ Cafe.id <$> sample_db) /\ int64 7 /\ "guess" ≠ "TopSecretAPIKey" /\
  ~ int64 (max_int64 + 1) /\
  get_db (delete_cafe 1 "guess") sample_db
    = (Raise (HTTPException 403 "Forbidden: Invalid API Key"), sample_db) /\
  (exists db',
     get_db (delete_cafe 1 "TopSecretAPIKey") sample_db
       = (Return [("success", "Successfully deleted the cafe from the database.")], db') /\
     forall c, c ∈ db' <-> c ∈ sample_db /\ Cafe.id c ≠ 1) /\
  get_db (delete_cafe 7 "TopSecretAPIKey") sample_db
     = (Raise (HTTPException 404 "Cafe not found"), sample_db) /\
  get_db (delete_cafe (max_int64 + 1) "TopSecretAPIKey") sample_db
     = (Raise OverflowError, sample_db).
Proof.
  assert (H1 : 1 ∈ Cafe.id <$> sample_db) by (vm_compute; apply elem_of_cons; left; reflexivity).
  assert (H7 : 7 ∉ Cafe.id <$> sample_db).
  { vm_compute. intros H. repeat (apply elem_of_cons in H as [H|H]; [discriminate H|]). inversion H. }
  assert (I1 : int64 1) by int64_lia. assert (I7 : int64 7) by int64_lia.
  assert (Iover : ~ int64 (max_int64 + 1)) by int64_lia.
  split; [reflexivity|]. split; [exact H1|]. split; [exact I1|]. split; [exact H7|].
  split; [exact I7|]. split; [discriminate|]. split; [exact Iover|].
  split; [|split; [|split]].
  - apply (delete_cafe_cases 1 "guess" sample_db). discriminate.
  - destruct (delete_cafe_cases 1 "TopSecretAPIKey" sample_db) as (_ & Hdel & _).
    destruct (Hdel eq_refl H1 I1) as (db' & Hrun & _ & Hmem & _).
    exists db'. auto.
  - destruct (delete_cafe_cases 7 "TopSecretAPIKey" sample_db) as (_ & _ & Hnot & _).
    exact (Hnot eq_refl H7 I7).
  - destruct (delete_cafe_cases (max_int64 + 1) "TopSecretAPIKey" sample_db) as (_ & _ & _ & Hover).
    apply (Hover eq_refl Iover).
Defined.

(** C4 as stated fails: the key is right and this [cafe_id] is the key of no
    row, and Delete does not fail with 404 but raises [OverflowError]; the
    reply is 500. *)
Lemma delete_cafe_raises_past_int64 :
  (max_int64 + 1 ∉ Cafe.id <$> @nil Cafe.t) /\
  get_db (delete_cafe (max_int64 + 1) "TopSecretAPIKey") []
    = (Raise OverflowError, []) /\
  status_code (DELETE_report_closed (max_int64 + 1) "TopSecretAPIKey" []).1 = 500.
Proof.
  split; [apply not_elem_of_nil | split; reflexivity].
Qed.

End updates.

(** ** Create *)

Section create.
Implicit Types (db : list Cafe.t) (c : Cafe.t) (cafe : CafeBase.t) (rowids : nat -> Z).


Lemma CafeCreate_validate_body_of cafe : CafeCreate_validate (body_of cafe) = Some cafe.
Proof. destruct cafe; reflexivity. Qed.

Lemma CafeCreate_validate_is_Some body :
  is_Some (CafeCreate_validate body) <->
  required_present body /\ is_Some (Body.coffee_price body).
Proof.
  unfold CafeCreate_validate, required_present. destruct body; simpl.
  repeat match goal with
         | |- context [mbind _ ?o] =>
             destruct o as [?|]; simpl;
             [| split; [intros H; destruct (is_Some_None H)
                       | intros H; decompose [and] H;
                         repeat match goal with
                                | H' : is_Some None |- _ => destruct (is_Some_None H')
                                end]]
         end.
  split; [intros _; repeat split; eexists; reflexivity | intros _; eexists; reflexivity].
Qed.

(** C7 as the code has it.  [coffee_price] is required in the body of Create:
    a body is accepted by the validation exactly when all ten fields are
    present, and a body without [coffee_price] is answered 422 whatever else
    it holds, the store being left alone. *)
Theorem create_requires_coffee_price rowids (body : Body.t) db :
  (is_Some (CafeCreate_validate body) <->
     required_present body /\ is_Some (Body.coffee_price body)) /\
  (Body.coffee_price body = None ->
     POST_add rowids body db = (Raise RequestValidationError, db) /\
     status_code (POST_add rowids body db).1 = 422).
Proof.
  split; [apply CafeCreate_validate_is_Some|].
  intros Hnone. unfold POST_add.
  destruct (CafeCreate_validate body) as [cafe|] eqn:E; [|split; reflexivity].
  assert (Hsome : is_Some (CafeCreate_validate body)) by (rewrite E; eauto).
  apply CafeCreate_validate_is_Some in Hsome as [_ Hprice].
  rewrite Hnone in Hprice. destruct (is_Some_None Hprice).
Qed.

Lemma create_requires_coffee_price_witness :
  Body.coffee_price (without_coffee_price (body_of peckham)) = None /\
  POST_add (draws 0) (without_coffee_price (body_of peckham)) sample_db
    = (Raise RequestValidationError, sample_db).
Proof.
  split; [reflexivity|].
  apply (create_requires_coffee_price (draws 0)
           (without_coffee_price (body_of peckham)) sample_db).
  reflexivity.
Defined.

(** C7 as stated fails: this body has the nine other fields and no
    [coffee_price], and Create answers 422 without storing anything. *)
Lemma create_without_coffee_price_rejected :
  required_present (without_coffee_price (body_of soho)) /\
  Body.coffee_price (without_coffee_price (body_of soho)) = None /\
  POST_add (draws 0) (without_coffee_price (body_of soho)) []
    = (Raise RequestValidationError, []) /\
  status_code (POST_add (draws 0) (without_coffee_price (body_of soho)) []).1 = 422.
Proof.
  split; [|split; [|split]]; try reflexivity.
  unfold required_present. simpl. repeat split; eexists; reflexivity.
Qed.

(** C1 as the code has it.  Create with the [name] of a row of the store is
    answered 500, not a client error, and the store is as before: the INSERT
    is refused at [commit] and no handler catches the exception.  The
    exception is [IntegrityError] whenever the engine has a key for the new
    row, which it has in every store whose keys are below the largest
    64-bit integer; in a store that holds that key, when every key the
    engine draws is in use, the INSERT fails before the constraint is
    checked and the exception is [OperationalError]. *)
Theorem add_cafe_duplicate_name rowids (body : Body.t) cafe db :
  CafeCreate_validate body = Some cafe ->
  CafeBase.name cafe ∈ Cafe.name <$> db ->
  (is_Some (new_rowid rowids db) ->
     get_db (add_cafe rowids cafe) db = (Raise IntegrityError, db) /\
     POST_add rowids body db = (Raise IntegrityError, db)) /\
  ((forall c, c ∈ db -> Cafe.id c < max_int64) -> is_Some (new_rowid rowids db)) /\
  (new_rowid rowids db = None ->
     get_db (add_cafe rowids cafe) db = (Raise OperationalError, db) /\
     POST_add rowids body db = (Raise OperationalError, db)) /\
  status_code (POST_add rowids body db).1 = 500 /\
  (POST_add rowids body db).2 = db.
Proof.
  intros Hvalid Hdup. unfold POST_add, route. rewrite Hvalid, get_db_add_cafe.
  split; [|split; [|split]].
  - intros [pk ->]. rewrite decide_True by exact Hdup. split; reflexivity.
  - intros Hbelow. destruct (new_rowid_next rowids db Hbelow) as (pk & -> & _). eauto.
  - intros ->. split; reflexivity.
  - destruct (new_rowid rowids db) as [pk|]; [|split; reflexivity].
    rewrite decide_True by exact Hdup. split; reflexivity.
Qed.

Lemma add_cafe_duplicate_name_witness :
  CafeCreate_validate (body_of peckham) = Some peckham /\
  (CafeBase.name peckham ∈ Cafe.name <$> sample_db) /\
  (CafeBase.name peckham ∈ Cafe.name <$> saturated_db) /\
  is_Some (new_rowid (draws 0) sample_db) /\
  new_rowid (draws 0) saturated_db = None /\
  POST_add (draws 0) (body_of peckham) sample_db = (Raise IntegrityError, sample_db) /\
  POST_add (draws 0) (body_of peckham) saturated_db = (Raise OperationalError, saturated_db).
Proof.
  assert (Hdup : CafeBase.name peckham ∈ Cafe.name <$> sample_db)
    by (vm_compute; apply elem_of_cons; right; apply elem_of_cons; left; reflexivity).
  assert (Hdup' : CafeBase.name peckham ∈ Cafe.name <$> saturated_db)
    by (vm_compute; apply elem_of_cons; right; apply elem_of_cons; left; reflexivity).
  assert (Hkey : is_Some (new_rowid (draws 0) sample_db)) by (vm_compute; eauto).
  assert (Hfull : new_rowid (draws 0) saturated_db = None) by (vm_compute; reflexivity).
  split; [reflexivity|]. split; [exact Hdup|]. split; [exact Hdup'|].
  split; [exact Hkey|]. split; [exact Hfull|]. split.
  - destruct (add_cafe_duplicate_name (draws 0) (body_of peckham) peckham sample_db
                eq_refl Hdup) as (Hint & _).
    apply (Hint Hkey).
  - destruct (add_cafe_duplicate_name (draws 0) (body_of peckham) peckham saturated_db
                eq_refl Hdup') as (_ & _ & Hop & _).
    apply (Hop Hfull).
Defined.

(** C1 as stated fails: the name of this body is the name of a row of the
    store, and the status of the reply is 500, which is no client error. *)
Lemma duplicate_name_not_client_error :
  (CafeBase.name soho ∈ Cafe.name <$> sample_db) /\
  CafeCreate_validate (body_of soho) = Some soho /\
  status_code (POST_add (draws 0) (body_of soho) sample_db).1 = 500 /\
  ~ client_error (status_code (POST_add (draws 0) (body_of soho) sample_db).1).
Proof.
  split; [vm_compute; apply elem_of_cons; left; reflexivity|].
  split; [reflexivity|]. split; [reflexivity|].
  unfold client_error. intros [_ H]. vm_compute in H. discriminate H.
Qed.

End create.

Section create_then_read.
Implicit Types (db pre post : list Cafe.t) (c row : Cafe.t) (cafe : CafeBase.t)
  (rowids : nat -> Z).







End create_then_read.

(** ** Invariants of the store *)

Section invariants.
Implicit Types (db : list Cafe.t) (c row : Cafe.t) (cafe : CafeBase.t) (rowids : nat -> Z).

Lemma wf_store_nil : wf_store [].
Proof. split; constructor. Qed.

Lemma priced_nil : priced [].
Proof. constructor. Qed.

Lemma sql_update_ids u db : Cafe.id <$> sql_update u db = Cafe.id <$> db.
Proof.
  unfold sql_update. rewrite <- list_fmap_compose. apply list_fmap_ext.
  intros i c _. simpl. destruct (decide _); reflexivity.
Qed.

Lemma sql_update_names u db : Cafe.name <$> sql_update u db = Cafe.name <$> db.
Proof.
  unfold sql_update. rewrite <- list_fmap_compose. apply list_fmap_ext.
  intros i c _. simpl. destruct (decide _); reflexivity.
Qed.

Lemma insert_by_rowid_sorted row db :
  StronglySorted Z.lt (Cafe.id <$> db) -> Cafe.id row ∉ Cafe.id <$> db ->
  StronglySorted Z.lt (Cafe.id <$> insert_by_rowid row db).
Proof.
  induction db as [|r db IH]; intros Hs Hfresh.
  - simpl. repeat constructor.
  - rewrite fmap_cons in Hfresh, Hs. apply not_elem_of_cons in Hfresh as [Hne Hfresh].
    apply StronglySorted_cons in Hs as [Hall Hs].
    cbn [insert_by_rowid]. destruct (decide (Cafe.id row < Cafe.id r)) as [Hlt|Hge].
    + rewrite !fmap_cons. apply StronglySorted_cons. split.
      * constructor; [exact Hlt|]. eapply Forall_impl; [exact Hall|]. intros k Hk. simpl in Hk. lia.
      * apply StronglySorted_cons. auto.
    + rewrite fmap_cons. apply StronglySorted_cons. split; [|auto].
      rewrite Forall_forall in *. intros k (c & -> & Hc)%list_elem_of_fmap_1.
      apply elem_of_insert_by_rowid in Hc as [->|Hc]; [lia|].
      apply Hall, list_elem_of_fmap_2, Hc.
Qed.

Lemma wf_store_insert row db :
  wf_store db -> Cafe.id row ∉ Cafe.id <$> db -> Cafe.name row ∉ Cafe.name <$> db ->
  wf_store (insert_by_rowid row db).
Proof.
  intros [Hids Hnames] Hfresh Hnew. split; [apply insert_by_rowid_sorted; assumption|].
  rewrite insert_by_rowid_Permutation, fmap_cons. apply NoDup_cons. auto.
Qed.

Lemma wf_store_update u db : wf_store db -> wf_store (sql_update u db).
Proof. unfold wf_store. rewrite sql_update_ids, sql_update_names. auto. Qed.

Lemma wf_store_delete pk db : wf_store db -> wf_store (sql_delete pk db).
Proof.
  unfold wf_store, sql_delete. induction db as [|r db IH]; [auto|].
  rewrite !fmap_cons, StronglySorted_cons, NoDup_cons. intros [[Hlt Hs] [Hn Hnd]].
  destruct (IH (conj Hs Hnd)) as [IHs IHn].
  rewrite filter_cons. destruct (decide (Cafe.id r ≠ pk)); [|auto].
  rewrite !fmap_cons, StronglySorted_cons, NoDup_cons.
  split; split; [| exact IHs | | exact IHn].
  - rewrite Forall_forall in *. intros k (c & -> & [_ Hc]%list_elem_of_filter)%list_elem_of_fmap_1.
    apply Hlt, list_elem_of_fmap_2, Hc.
  - intros (c & E & [_ Hc]%list_elem_of_filter)%list_elem_of_fmap_1.
    apply Hn. rewrite E. apply list_elem_of_fmap_2, Hc.
Qed.

Lemma priced_insert cafe pk db : priced db -> priced (insert_by_rowid (Cafe_row pk cafe) db).
Proof.
  unfold priced. rewrite !Forall_forall. intros H c [->|Hc]%elem_of_insert_by_rowid; [|auto].
  simpl. eauto.
Qed.

Lemma priced_update u db : priced db -> priced (sql_update u db).
Proof.
  unfold priced, sql_update. intros H. apply Forall_fmap.
  eapply Forall_impl; [exact H|]. intros c Hc. simpl.
  destruct (decide _); [simpl; eauto | exact Hc].
Qed.

Lemma priced_delete pk db : priced db -> priced (sql_delete pk db).
Proof.
  unfold priced, sql_delete. rewrite !Forall_forall.
  intros H c [_ Hc]%list_elem_of_filter. exact (H c Hc).
Qed.

(** Create, Update-price and Delete keep a store well formed and priced;
    the store a service starts from, the empty table, is both. *)
Lemma writes_keep_invariants db :
  wf_store db -> priced db ->
  (forall rowids cafe,
     wf_store (get_db (add_cafe rowids cafe) db).2 /\
     priced (get_db (add_cafe rowids cafe) db).2) /\
  (forall cafe_id new_price,
     wf_store (get_db (update_price cafe_id new_price) db).2 /\
     priced (get_db (update_price cafe_id new_price) db).2) /\
  (forall cafe_id api_key,
     wf_store (get_db (delete_cafe cafe_id api_key) db).2 /\
     priced (get_db (delete_cafe cafe_id api_key) db).2).
Proof.
  intros Hwf Hp. split; [|split].
  - intros rowids cafe. rewrite get_db_add_cafe.
    destruct (new_rowid rowids db) as [pk|] eqn:Epk; [|auto].
    destruct (decide _) as [Hdup|Hnew]; simpl; [auto|].
    split; [|apply priced_insert, Hp].
    apply wf_store_insert; [exact Hwf | exact (new_rowid_fresh _ _ _ Epk) | exact Hnew].
  - intros cafe_id new_price. rewrite get_db_update_price.
    destruct (decide _); [|auto]. destruct (head _); simpl;
      auto using wf_store_update, priced_update.
  - intros cafe_id api_key. rewrite get_db_delete_cafe.
    destruct (decide _); [auto|]. destruct (decide _); [|auto]. destruct (head _); simpl;
      auto using wf_store_delete, priced_delete.
Qed.

Lemma priced_validate c : is_Some (Cafe.coffee_price c) -> is_Some (CafeResponse_validate c).
Proof. intros [p Hp]. unfold CafeResponse_validate. rewrite Hp. simpl. eauto. Qed.

Lemma priced_validate_all cafes :
  priced cafes -> is_Some (mapM CafeResponse_validate cafes).
Proof.
  intros H. apply mapM_is_Some_2. eapply Forall_impl; [exact H|].
  intros c. apply priced_validate.
Qed.



End invariants.

(** ** How the operations compose *)

Section compositions.
Implicit Types (db : list Cafe.t) (c row : Cafe.t) (cafe : CafeBase.t) (rowids : nat -> Z).

Lemma sql_delete_absent pk db : pk ∉ Cafe.id <$> db -> sql_delete pk db = db.
Proof.
  unfold sql_delete. induction db as [|r db IH]; [reflexivity|].
  rewrite fmap_cons, not_elem_of_cons. intros [Hne Hout].
  rewrite filter_cons_True by congruence. rewrite (IH Hout). reflexivity.
Qed.

Lemma sql_delete_gone pk db : pk ∉ Cafe.id <$> sql_delete pk db.
Proof.
  unfold sql_delete. intros (c & E & [Hne _]%list_elem_of_filter)%list_elem_of_fmap_1.
  congruence.
Qed.

Lemma sql_delete_inserted row db :
  Cafe.id row ∉ Cafe.id <$> db -> sql_delete (Cafe.id row) (insert_by_rowid row db) = db.
Proof.
  intros Hout.
  destruct (insert_by_rowid_split row db) as (pre & post & -> & -> & _).
  unfold sql_delete. rewrite filter_app, filter_cons_False by tauto.
  rewrite <- filter_app. exact (sql_delete_absent _ _ Hout).
Qed.

Lemma sql_update_twice pk p1 p2 db :
  sql_update (pk, p2) (sql_update (pk, p1) db) = sql_update (pk, p2) db.
Proof.
  unfold sql_update; simpl. rewrite <- list_fmap_compose. apply list_fmap_ext.
  intros i c _. simpl. destruct (decide (Cafe.id c = pk)) as [E|E]; simpl.
  - rewrite decide_True by exact E. reflexivity.
  - rewrite decide_False by exact E. reflexivity.
Qed.

Lemma add_cafe_returns rowids cafe db row db' :
  get_db (add_cafe rowids cafe) db = (Return row, db') ->
  exists pk,
    new_rowid rowids db = Some pk /\ (CafeBase.name cafe ∉ Cafe.name <$> db) /\
    row = Cafe_row pk cafe /\ db' = insert_by_rowid (Cafe_row pk cafe) db.
Proof.
  rewrite get_db_add_cafe. destruct (new_rowid rowids db) as [pk|]; [|discriminate].
  destruct (decide _) as [Hdup|Hnew]; [discriminate|]. intros [= <- <-]. eauto.
Qed.

Lemma delete_inserted_run pk cafe db :
  int64 pk -> pk ∉ Cafe.id <$> db ->
  get_db (delete_cafe pk "TopSecretAPIKey") (insert_by_rowid (Cafe_row pk cafe) db)
    = (Return [("success", "Successfully deleted the cafe from the database.")], db).
Proof.
  intros H64 Hfresh.
  rewrite get_db_delete_cafe, decide_False by (intros H; apply H; reflexivity).
  rewrite decide_True by exact H64.
  pose proof (first_by_id_inserted (Cafe_row pk cafe) db Hfresh) as Hrow.
  pose proof (sql_delete_inserted (Cafe_row pk cafe) db Hfresh) as Hdel.
  change (Cafe.id (Cafe_row pk cafe)) with pk in Hrow, Hdel.
  rewrite Hrow, Hdel. reflexivity.
Qed.

(** X1.  In a store of 64-bit keys, a Create that returns a row followed by
    Delete of the key of that row, with the right [api_key], hands back the
    store Create started from. *)
Theorem create_then_delete_restores rowids cafe db row db' :
  int64_keys db ->
  get_db (add_cafe rowids cafe) db = (Return row, db') ->
  get_db (delete_cafe (Cafe.id row) "TopSecretAPIKey") db'
    = (Return [("success", "Successfully deleted the cafe from the database.")], db).
Proof.
  intros Hkeys (pk & Hpk & _ & -> & ->)%add_cafe_returns.
  apply delete_inserted_run.
  - exact (new_rowid_int64 _ _ _ Hkeys Hpk).
  - exact (new_rowid_fresh _ _ _ Hpk).
Qed.

Lemma create_then_delete_restores_witness :
  int64_keys saturated_db /\
  get_db (add_cafe (draws 4) quoted) saturated_db
    = (Return (Cafe_row 5 quoted), insert_by_rowid (Cafe_row 5 quoted) saturated_db) /\
  get_db (delete_cafe (Cafe.id (Cafe_row 5 quoted)) "TopSecretAPIKey")
    (insert_by_rowid (Cafe_row 5 quoted) saturated_db)
    = (Return [("success", "Successfully deleted the cafe from the database.")], saturated_db).
Proof.
  assert (Hkeys : int64_keys saturated_db).
  { intros c Hc. unfold saturated_db in Hc.
    repeat (apply elem_of_cons in Hc as [->|Hc]; [vm_compute; split; discriminate|]).
    inversion Hc. }
  assert (Hrun : get_db (add_cafe (draws 4) quoted) saturated_db
                 = (Return (Cafe_row 5 quoted), insert_by_rowid (Cafe_row 5 quoted) saturated_db))
    by (vm_compute; reflexivity).
  split; [exact Hkeys|]. split; [exact Hrun|].
  exact (create_then_delete_restores _ _ _ _ _ Hkeys Hrun).
Defined.

Lemma new_rowid_counts rowids rowids' db :
  (forall c, c ∈ db -> Cafe.id c < max_int64) ->
  new_rowid rowids db = new_rowid rowids' db.
Proof.
  intros Hbelow. unfold new_rowid. destruct (max_rowid db) as [m|] eqn:Em; [|reflexivity].
  destruct (max_rowid_spec db m Em) as [(c & Hc & Hm) _].
  rewrite !decide_True by (rewrite <- Hm; auto). reflexivity.
Qed.

(** X2.  Keys are given again.  In a store whose keys are 64-bit integers
    below the largest one, when the row a Create made is deleted, the next
    Create receives the key that row had. *)
Theorem deleted_key_is_reused rowids rowids' cafe cafe' db :
  (forall c, c ∈ db -> min_int64 <= Cafe.id c < max_int64) ->
  CafeBase.name cafe ∉ Cafe.name <$> db ->
  CafeBase.name cafe' ∉ Cafe.name <$> db ->
  exists row db1 db2 row' db3,
    get_db (add_cafe rowids cafe) db = (Return row, db1) /\
    (get_db (delete_cafe (Cafe.id row) "TopSecretAPIKey") db1).2 = db2 /\
    get_db (add_cafe rowids' cafe') db2 = (Return row', db3) /\
    Cafe.id row' = Cafe.id row.
Proof.
  intros Hkeys Hnew Hnew'.
  assert (Hbelow : forall c, c ∈ db -> Cafe.id c < max_int64)
    by (intros c Hc; apply (Hkeys c Hc)).
  assert (H64 : int64_keys db) by (intros c Hc; specialize (Hkeys c Hc); int64_lia).
  destruct (new_rowid_next rowids db Hbelow) as (pk & Hpk & _).
  destruct (new_rowid_next rowids' db Hbelow) as (pk' & Hpk' & _).
  assert (E : pk' = pk).
  { rewrite (new_rowid_counts rowids rowids' db Hbelow) in Hpk. congruence. }
  subst pk'.
  exists (Cafe_row pk cafe), (insert_by_rowid (Cafe_row pk cafe) db), db,
    (Cafe_row pk cafe'), (insert_by_rowid (Cafe_row pk cafe') db).
  split; [rewrite get_db_add_cafe, Hpk, decide_False by exact Hnew; reflexivity|].
  split.
  - change (Cafe.id (Cafe_row pk cafe)) with pk.
    rewrite delete_inserted_run;
      [reflexivity | exact (new_rowid_int64 _ _ _ H64 Hpk) | exact (new_rowid_fresh _ _ _ Hpk)].
  - split; [|reflexivity].
    rewrite get_db_add_cafe, Hpk', decide_False by exact Hnew'. reflexivity.
Qed.

Lemma deleted_key_is_reused_witness :
  (forall c, c ∈ [Cafe_row 1 soho] -> min_int64 <= Cafe.id c < max_int64) /\
  (CafeBase.name quoted ∉ Cafe.name <$> [Cafe_row 1 soho]) /\
  (CafeBase.name peckham ∉ Cafe.name <$> [Cafe_row 1 soho]) /\
  exists row db1 db2 row' db3,
    get_db (add_cafe (draws 0) quoted) [Cafe_row 1 soho] = (Return row, db1) /\
    (get_db (delete_cafe (Cafe.id row) "TopSecretAPIKey") db1).2 = db2 /\
    get_db (add_cafe (draws 9) peckham) db2 = (Return row', db3) /\
    Cafe.id row' = Cafe.id row.
Proof.
  assert (H0 : forall c, c ∈ [Cafe_row 1 soho] -> min_int64 <= Cafe.id c < max_int64).
  { intros c ->%list_elem_of_singleton. vm_compute. split; [discriminate | reflexivity]. }
  assert (H1 : CafeBase.name quoted ∉ Cafe.name <$> [Cafe_row 1 soho]).
  { vm_compute. intros H. repeat (apply elem_of_cons in H as [H|H]; [discriminate H|]). inversion H. }
  assert (H2 : CafeBase.name peckham ∉ Cafe.name <$> [Cafe_row 1 soho]).
  { vm_compute. intros H. repeat (apply elem_of_cons in H as [H|H]; [discriminate H|]). inversion H. }
  split; [exact H0|]. split; [exact H1|]. split; [exact H2|].
  exact (deleted_key_is_reused (draws 0) (draws 9) quoted peckham [Cafe_row 1 soho] H0 H1 H2).
Defined.

(** X3.  The key of a created row.  In a store whose keys are below the
    largest 64-bit integer it is 1 when the store is empty and otherwise one
    more than the largest key, so above every key of the store.  In a store
    that holds the largest 64-bit integer as a key it is one of the numbers
    the engine drew, between 1 and 2^62.  It is never a key of the store. *)
Theorem add_cafe_assigns_next_key rowids cafe db row db' :
  get_db (add_cafe rowids cafe) db = (Return row, db') ->
  ((forall c, c ∈ db -> Cafe.id c < max_int64) ->
     (db = [] -> Cafe.id row = 1) /\
     (db ≠ [] -> exists c, c ∈ db /\ Cafe.id row = Cafe.id c + 1) /\
     (forall c, c ∈ db -> Cafe.id c < Cafe.id row)) /\
  (forall c, c ∈ db -> max_int64 <= Cafe.id c ->
     1 <= Cafe.id row <= 2 ^ 62 /\
     exists i, (i < rowid_attempts)%nat /\ Cafe.id row = random_rowid (rowids i)) /\
  (Cafe.id row ∉ Cafe.id <$> db).
Proof.
  intros (pk & Hpk & _ & -> & ->)%add_cafe_returns.
  change (Cafe.id (Cafe_row pk cafe)) with pk. split; [|split].
  - intros Hbelow. destruct (new_rowid_next rowids db Hbelow) as (pk' & Hpk' & H).
    rewrite Hpk in Hpk'. injection Hpk' as <-. exact H.
  - intros c Hc Hmax.
    destruct (new_rowid_drawn rowids db c pk Hc Hmax Hpk) as (i & Hi & ->).
    split; [apply random_rowid_range | eauto].
  - exact (new_rowid_fresh _ _ _ Hpk).
Qed.

Lemma add_cafe_assigns_next_key_witness :
  get_db (add_cafe (draws 0) quoted) sample_db
    = (Return (Cafe_row 3 quoted), sample_db ++ [Cafe_row 3 quoted]) /\
  (forall c, c ∈ sample_db -> Cafe.id c < max_int64) /\
  (forall c, c ∈ sample_db -> Cafe.id c < Cafe.id (Cafe_row 3 quoted)) /\
  get_db (add_cafe (draws 4) quoted) saturated_db
    = (Return (Cafe_row 5 quoted), insert_by_rowid (Cafe_row 5 quoted) saturated_db) /\
  (Cafe_row max_int64 peckham ∈ saturated_db) /\
  max_int64 <= Cafe.id (Cafe_row max_int64 peckham) /\
  1 <= Cafe.id (Cafe_row 5 quoted) <= 2 ^ 62.
Proof.
  assert (Hrun : get_db (add_cafe (draws 0) quoted) sample_db
                 = (Return (Cafe_row 3 quoted), sample_db ++ [Cafe_row 3 quoted]))
    by (vm_compute; reflexivity).
  assert (Hbelow : forall c, c ∈ sample_db -> Cafe.id c < max_int64).
  { intros c Hc. unfold sample_db in Hc.
    repeat (apply elem_of_cons in Hc as [->|Hc]; [vm_compute; reflexivity|]). inversion Hc. }
  assert (Hrun' : get_db (add_cafe (draws 4) quoted) saturated_db
                  = (Return (Cafe_row 5 quoted), insert_by_rowid (Cafe_row 5 quoted) saturated_db))
    by (vm_compute; reflexivity).
  assert (Hin : Cafe_row max_int64 peckham ∈ saturated_db)
    by (apply elem_of_cons; right; apply elem_of_cons; left; reflexivity).
  assert (Hmax : max_int64 <= Cafe.id (Cafe_row max_int64 peckham)) by (simpl; lia).
  split; [exact Hrun|]. split; [exact Hbelow|]. split.
  - destruct (add_cafe_assigns_next_key _ _ _ _ _ Hrun) as [Hnext _].
    apply (Hnext Hbelow).
  - split; [exact Hrun'|]. split; [exact Hin|]. split; [exact Hmax|].
    destruct (add_cafe_assigns_next_key _ _ _ _ _ Hrun') as (_ & Hdrawn & _).
    apply (Hdrawn _ Hin Hmax).
Defined.

(** X4.  After a Create has stored a row, a Create with the same [name] is
    answered 500 and stores nothing, whatever the other fields of its
    payload are.  The exception is [IntegrityError] whenever the engine has
    a key for the new row, which it has in every store whose keys are below
    the largest 64-bit integer; when it has none the INSERT fails before the
    constraint is checked and the exception is [OperationalError]. *)
Theorem second_create_same_name_fails rowids rowids' cafe cafe' db row db1 :
  get_db (add_cafe rowids cafe) db = (Return row, db1) ->
  CafeBase.name cafe' = CafeBase.name cafe ->
  (is_Some (new_rowid rowids' db1) ->
     get_db (add_cafe rowids' cafe') db1 = (Raise IntegrityError, db1) /\
     POST_add rowids' (body_of cafe') db1 = (Raise IntegrityError, db1)) /\
  ((forall c, c ∈ db1 -> Cafe.id c < max_int64) -> is_Some (new_rowid rowids' db1)) /\
  (new_rowid rowids' db1 = None ->
     get_db (add_cafe rowids' cafe') db1 = (Raise OperationalError, db1) /\
     POST_add rowids' (body_of cafe') db1 = (Raise OperationalError, db1)) /\
  status_code (POST_add rowids' (body_of cafe') db1).1 = 500 /\
  (POST_add rowids' (body_of cafe') db1).2 = db1.
Proof.
  intros (pk & Hpk & _ & -> & ->)%add_cafe_returns Hname.
  assert (Hdup : CafeBase.name cafe' ∈ Cafe.name <$> insert_by_rowid (Cafe_row pk cafe) db).
  { apply list_elem_of_fmap. exists (Cafe_row pk cafe). split; [exact Hname|].
    apply elem_of_insert_by_rowid. left. reflexivity. }
  unfold POST_add, route. rewrite CafeCreate_validate_body_of, get_db_add_cafe.
  split; [|split; [|split]].
  - intros [pk' ->]. rewrite decide_True by exact Hdup. split; reflexivity.
  - intros Hbelow. destruct (new_rowid_next rowids' _ Hbelow) as (pk' & -> & _). eauto.
  - intros ->. split; reflexivity.
  - destruct (new_rowid rowids' _) as [pk'|]; [|split; reflexivity].
    rewrite decide_True by exact Hdup. split; reflexivity.
Qed.

Lemma second_create_same_name_fails_witness :
  get_db (add_cafe (draws 0) quoted) sample_db
    = (Return (Cafe_row 3 quoted), sample_db ++ [Cafe_row 3 quoted]) /\
  CafeBase.name quoted = CafeBase.name quoted /\
  is_Some (new_rowid (draws 0) (sample_db ++ [Cafe_row 3 quoted])) /\
  get_db (add_cafe (draws 0) quoted) (sample_db ++ [Cafe_row 3 quoted])
    = (Raise IntegrityError, sample_db ++ [Cafe_row 3 quoted]).
Proof.
  assert (Hrun : get_db (add_cafe (draws 0) quoted) sample_db
                 = (Return (Cafe_row 3 quoted), sample_db ++ [Cafe_row 3 quoted]))
    by (vm_compute; reflexivity).
  assert (Hkey : is_Some (new_rowid (draws 0) (sample_db ++ [Cafe_row 3 quoted])))
    by (vm_compute; eauto).
  split; [exact Hrun|]. split; [reflexivity|]. split; [exact Hkey|].
  destruct (second_create_same_name_fails (draws 0) (draws 0) quoted quoted sample_db
              _ _ Hrun eq_refl) as [Hint _].
  apply (Hint Hkey).
Defined.

(** X5.  Update-price twice on the same [cafe_id] is Update-price with the
    second price: the reply and the store are those of the second update
    alone, whatever [cafe_id] is. *)
Theorem update_price_last_wins (cafe_id : Z) (p1 p2 : string) db :
  get_db (update_price cafe_id p2) (get_db (update_price cafe_id p1) db).2
    = get_db (update_price cafe_id p2) db.
Proof.
  rewrite (get_db_update_price cafe_id p1 db).
  destruct (decide (int64 cafe_id)) as [H64|Hover]; [|reflexivity].
  destruct (head (filter (fun r => Cafe.id r = cafe_id) db)) as [c|] eqn:E; simpl; [|reflexivity].
  rewrite !get_db_update_price. rewrite !decide_True by exact H64.
  rewrite E, (first_by_id_update cafe_id p1 db c E), sql_update_twice. reflexivity.
Qed.

(** X6.  Delete twice with the right [api_key]: for a 64-bit [cafe_id] the
    second Delete raises 404 and leaves the store as the first left it; for a
    [cafe_id] outside the signed 64-bit range each Delete raises
    [OverflowError] and leaves the store as it was. *)
Theorem delete_twice_not_found (cafe_id : Z) db :
  (int64 cafe_id ->
   get_db (delete_cafe cafe_id "TopSecretAPIKey")
     (get_db (delete_cafe cafe_id "TopSecretAPIKey") db).2
     = (Raise (HTTPException 404 "Cafe not found"),
        (get_db (delete_cafe cafe_id "TopSecretAPIKey") db).2)) /\
  (~ int64 cafe_id ->
   get_db (delete_cafe cafe_id "TopSecretAPIKey") db = (Raise OverflowError, db)).
Proof.
  split.
  - intros H64.
    assert (Hgone : cafe_id ∉ Cafe.id <$> (get_db (delete_cafe cafe_id "TopSecretAPIKey") db).2).
    { rewrite get_db_delete_cafe, decide_False by (intros H; apply H; reflexivity).
      rewrite decide_True by exact H64.
      destruct (head _) as [c|] eqn:E; simpl; [apply sql_delete_gone|].
      apply first_by_id_None, E. }
    rewrite (get_db_delete_cafe cafe_id _ (get_db _ db).2).
    rewrite decide_False by (intros H; apply H; reflexivity).
    rewrite decide_True by exact H64.
    apply first_by_id_None in Hgone. rewrite Hgone. reflexivity.
  - intros Hover. rewrite get_db_delete_cafe, decide_False by (intros H; apply H; reflexivity).
    rewrite decide_False by exact Hover. reflexivity.
Qed.

Lemma delete_twice_not_found_witness :
  int64 2 /\ ~ int64 (min_int64 - 1) /\
  get_db (delete_cafe 2 "TopSecretAPIKey")
    (get_db (delete_cafe 2 "TopSecretAPIKey") sample_db).2
    = (Raise (HTTPException 404 "Cafe not found"),
       (get_db (delete_cafe 2 "TopSecretAPIKey") sample_db).2) /\
  get_db (delete_cafe (min_int64 - 1) "TopSecretAPIKey") sample_db
    = (Raise OverflowError, sample_db).
Proof.
  assert (I2 : int64 2) by int64_lia.
  assert (Iover : ~ int64 (min_int64 - 1)) by int64_lia.
  split; [exact I2|]. split; [exact Iover|]. split.
  - destruct (delete_twice_not_found 2 sample_db) as [H _]. exact (H I2).
  - destruct (delete_twice_not_found (min_int64 - 1) sample_db) as [_ H]. exact (H Iover).
Defined.

(** X7.  In a store whose rows have distinct keys, a successful Delete, of a
    64-bit key of the store, removes exactly one row. *)
Theorem delete_removes_one_row (cafe_id : Z) db :
  NoDup (Cafe.id <$> db) -> cafe_id ∈ Cafe.id <$> db -> int64 cafe_id ->
  S (length (get_db (delete_cafe cafe_id "TopSecretAPIKey") db).2) = length db.
Proof.
  intros Hnd Hin H64.
  rewrite get_db_delete_cafe, decide_False by (intros H; apply H; reflexivity).
  rewrite decide_True by exact H64.
  destruct (first_by_id_is_Some _ _ Hin) as [c ->]. simpl.
  clear c. unfold sql_delete. induction db as [|r db IH]; [inversion Hin|].
  rewrite fmap_cons in Hnd, Hin. apply NoDup_cons in Hnd as [Hr Hnd].
  rewrite filter_cons. destruct (decide (Cafe.id r ≠ cafe_id)) as [Hne|Heq]; simpl.
  - apply elem_of_cons in Hin as [Hin|Hin]; [congruence|]. rewrite (IH Hnd Hin). reflexivity.
  - assert (E : Cafe.id r = cafe_id) by (destruct (decide (Cafe.id r = cafe_id)); tauto).
    rewrite E in Hr. fold (sql_delete cafe_id db).
    rewrite (sql_delete_absent cafe_id db Hr). reflexivity.
Qed.

Lemma delete_removes_one_row_witness :
  NoDup (Cafe.id <$> sample_db) /\ (2 ∈ Cafe.id <$> sample_db) /\ int64 2 /\
  S (length (get_db (delete_cafe 2 "TopSecretAPIKey") sample_db).2) = length sample_db.
Proof.
  assert (Hnd : NoDup (Cafe.id <$> sample_db)).
  { change (NoDup [1; 2]). apply NoDup_cons. split; [|apply NoDup_singleton].
    intros H. apply list_elem_of_singleton in H. discriminate H. }
  assert (H2 : 2 ∈ Cafe.id <$> sample_db)
    by (vm_compute; apply elem_of_cons; right; apply elem_of_cons; left; reflexivity).
  assert (I2 : int64 2) by int64_lia.
  split; [exact Hnd|]. split; [exact H2|]. split; [exact I2|].
  exact (delete_removes_one_row 2 sample_db Hnd H2 I2).
Defined.

End compositions.

(** ** Pages *)

Section pages.
Implicit Types (db : list Cafe.t) (c : Cafe.t).

(** X8.  Consecutive pages tile the store: for non-negative arguments with
    [skip + n] and [n + m] up to the largest 64-bit integer, the page of [n]
    rows after [skip] followed by the page of [m] rows after [skip + n] is
    the page of [n + m] rows after [skip]. *)
Theorem read_cafes_pages_tile (skip n m : Z) db :
  0 <= skip -> 0 <= n -> 0 <= m ->
  skip + n <= max_int64 -> n + m <= max_int64 ->
  exists page1 page2,
    (get_db (read_cafes skip n) db).1 = Return page1 /\
    (get_db (read_cafes (skip + n) m) db).1 = Return page2 /\
    (get_db (read_cafes skip (n + m)) db).1 = Return (page1 ++ page2).
Proof.
  intros Hskip Hn Hm Hsn Hnm. rewrite !get_db_read_cafes_int64 by int64_lia. simpl.
  unfold sql_limit, sql_offset. rewrite !decide_False by lia.
  eexists _, _. split; [reflexivity|]. split; [reflexivity|]. f_equal.
  rewrite !Z2Nat.inj_add by lia.
  rewrite <- (drop_drop db (Z.to_nat n) (Z.to_nat skip)).
  symmetry. apply take_take_drop.
Qed.

Lemma read_cafes_pages_tile_witness :
  0 <= 0 /\ 0 <= 1 /\ 0 <= 1 /\ 0 + 1 <= max_int64 /\ 1 + 1 <= max_int64 /\
  exists page1 page2,
    (get_db (read_cafes 0 1) sample_db).1 = Return page1 /\
    (get_db (read_cafes (0 + 1) 1) sample_db).1 = Return page2 /\
    (get_db (read_cafes 0 (1 + 1)) sample_db).1 = Return (page1 ++ page2).
Proof.
  split; [lia|]. split; [lia|]. split; [lia|]. split; [int64_lia|]. split; [int64_lia|].
  apply (read_cafes_pages_tile 0 1 1 sample_db); int64_lia.
Defined.

(** X9.  A page that starts at the first row and is at least as long as the
    store, with a [limit] up to the largest 64-bit integer, is what All
    returns. *)
Theorem read_cafes_whole_store (limit : Z) db :
  Z.of_nat (length db) <= limit -> limit <= max_int64 ->
  get_db (read_cafes 0 limit) db = get_db all_cafe db.
Proof.
  intros Hlimit Hmax. rewrite get_db_read_cafes_int64, get_db_all_cafe by int64_lia.
  unfold sql_limit, sql_offset. rewrite decide_False by lia.
  change (Z.to_nat 0) with 0%nat. rewrite drop_0.
  rewrite take_ge by lia. reflexivity.
Qed.

Lemma read_cafes_whole_store_witness :
  Z.of_nat (length sample_db) <= 10 /\ 10 <= max_int64 /\
  get_db (read_cafes 0 10) sample_db = get_db all_cafe sample_db.
Proof.
  assert (H : Z.of_nat (length sample_db) <= 10) by (simpl; lia).
  assert (Hmax : 10 <= max_int64) by int64_lia.
  split; [exact H|]. split; [exact Hmax | exact (read_cafes_whole_store 10 sample_db H Hmax)].
Defined.

(** X10.  List does not check the sign of its arguments.  For 64-bit
    arguments, a [limit] of zero gives the empty list, a negative [limit]
    gives every row after the first [skip], and a negative [skip] skips
    nothing; an argument outside the signed 64-bit range raises
    [OverflowError]. *)
Theorem read_cafes_unchecked_arguments (skip limit : Z) db :
  (int64 skip -> limit = 0 -> get_db (read_cafes skip limit) db = (Return [], db)) /\
  (int64 skip -> min_int64 <= limit < 0 ->
     get_db (read_cafes skip limit) db = (Return (drop (Z.to_nat skip) db), db)) /\
  (min_int64 <= skip < 0 -> int64 limit ->
     get_db (read_cafes skip limit) db = get_db (read_cafes 0 limit) db) /\
  (~ (int64 skip /\ int64 limit) ->
     get_db (read_cafes skip limit) db = (Raise OverflowError, db)).
Proof.
  split; [|split; [|split]].
  - intros Hs ->. rewrite get_db_read_cafes_int64 by int64_lia. reflexivity.
  - intros Hs Hl. rewrite get_db_read_cafes_int64 by int64_lia.
    unfold sql_limit, sql_offset. rewrite decide_True by lia. reflexivity.
  - intros Hs Hl. rewrite !get_db_read_cafes_int64 by int64_lia.
    unfold sql_offset. replace (Z.to_nat skip) with (Z.to_nat 0) by lia. reflexivity.
  - intros Hover. rewrite get_db_read_cafes, decide_False by exact Hover. reflexivity.
Qed.

Lemma read_cafes_unchecked_arguments_witness :
  int64 1 /\ 0 = 0 /\ min_int64 <= -1 < 0 /\ min_int64 <= -5 < 0 /\ int64 10 /\
  ~ (int64 (min_int64 - 1) /\ int64 10) /\
  get_db (read_cafes 1 0) sample_db = (Return [], sample_db) /\
  get_db (read_cafes 1 (-1)) sample_db = (Return (drop (Z.to_nat 1) sample_db), sample_db) /\
  get_db (read_cafes (-5) 10) sample_db = get_db (read_cafes 0 10) sample_db /\
  get_db (read_cafes (min_int64 - 1) 10) sample_db = (Raise OverflowError, sample_db).
Proof.
  assert (I1 : int64 1) by int64_lia. assert (I10 : int64 10) by int64_lia.
  assert (Hn1 : min_int64 <= -1 < 0) by int64_lia.
  assert (Hn5 : min_int64 <= -5 < 0) by int64_lia.
  assert (Hover : ~ (int64 (min_int64 - 1) /\ int64 10)) by int64_lia.
  split; [exact I1|]. split; [reflexivity|]. split; [exact Hn1|]. split; [exact Hn5|].
  split; [exact I10|]. split; [exact Hover|]. split; [|split; [|split]].
  - destruct (read_cafes_unchecked_arguments 1 0 sample_db) as (H & _).
    apply H; [exact I1 | reflexivity].
  - destruct (read_cafes_unchecked_arguments 1 (-1) sample_db) as (_ & H & _).
    apply H; [exact I1 | exact Hn1].
  - destruct (read_cafes_unchecked_arguments (-5) 10 sample_db) as (_ & _ & H & _).
    apply H; [exact Hn5 | exact I10].
  - destruct (read_cafes_unchecked_arguments (min_int64 - 1) 10 sample_db) as (_ & _ & _ & H).
    apply H, Hover.
Defined.

End pages.

(** ** Quotes around the search key *)

Section quotes.
Variable chars : string.

Lemma lstrip_only s : only_chars chars s = true -> lstrip chars s = EmptyString.
Proof.
  induction s as [|a s IH]; simpl; [reflexivity|].
  intros [Ha Hs]%andb_true_iff. rewrite Ha. exact (IH Hs).
Qed.

Lemma rstrip_only s : only_chars chars s = true -> rstrip chars s = EmptyString.
Proof.
  induction s as [|a s IH]; simpl; [reflexivity|].
  intros [Ha Hs]%andb_true_iff. rewrite (IH Hs), Ha. reflexivity.
Qed.

Lemma lstrip_prefix pre s :
  only_chars chars pre = true -> lstrip chars (pre +:+ s) = lstrip chars s.
Proof.
  induction pre as [|a pre IH]; [reflexivity|].
  intros H. simpl in H. apply andb_true_iff in H as [Ha Hpre].
  change (lstrip chars (String a (pre +:+ s)) = lstrip chars s).
  simpl. rewrite Ha. exact (IH Hpre).
Qed.

Lemma rstrip_suffix s post :
  only_chars chars post = true -> rstrip chars (s +:+ post) = rstrip chars s.
Proof.
  intros Hpost. induction s as [|a s IH].
  - change (rstrip chars post = rstrip chars EmptyString). apply rstrip_only, Hpost.
  - change (rstrip chars (String a (s +:+ post)) = rstrip chars (String a s)).
    simpl. rewrite IH. reflexivity.
Qed.

Lemma lstrip_append s post :
  only_chars chars post = true ->
  lstrip chars (s +:+ post) =
    match lstrip chars s with
    | EmptyString => EmptyString
    | String a r => String a r +:+ post
    end.
Proof.
  intros Hpost. induction s as [|a s IH].
  - change (lstrip chars post = EmptyString). apply lstrip_only, Hpost.
  - change (lstrip chars (String a (s +:+ post)) =
              match lstrip chars (String a s) with
              | EmptyString => EmptyString
              | String b r => String b r +:+ post
              end).
    simpl. destruct (in_chars chars a); [exact IH | reflexivity].
Qed.

Lemma strip_wrapped pre s post :
  only_chars chars pre = true -> only_chars chars post = true ->
  strip chars (pre +:+ s +:+ post) = strip chars s.
Proof.
  intros Hpre Hpost. unfold strip.
  rewrite (lstrip_prefix pre _ Hpre), (lstrip_append s post Hpost).
  destruct (lstrip chars s) as [|a r]; [reflexivity|].
  apply rstrip_suffix, Hpost.
Qed.

Lemma strip_strip s : strip chars (strip chars s) = strip chars s.
Proof.
  destruct (strip_spec chars s) as (_ & _ & _ & _ & _ & Hs & He).
  apply strip_id; assumption.
Qed.

End quotes.

Section search.
Implicit Types (db : list Cafe.t) (c : Cafe.t).

(** X11.  Search does not see the quote characters around [loc]: adding any
    run of apostrophes and double quotes before and after [loc] changes
    neither the reply nor the store. *)
Theorem find_cafe_ignores_quotes (pre loc post : string) db :
  only_chars quote_chars pre = true -> only_chars quote_chars post = true ->
  get_db (find_cafe (pre +:+ loc +:+ post)) db = get_db (find_cafe loc) db.
Proof.
  intros Hpre Hpost. rewrite !get_db_find_cafe.
  rewrite (strip_wrapped quote_chars pre loc post Hpre Hpost). reflexivity.
Qed.

Lemma find_cafe_ignores_quotes_witness :
  only_chars quote_chars "'" = true /\ only_chars quote_chars (String "034" "'") = true /\
  get_db (find_cafe ("'" +:+ "Soho" +:+ String "034" "'")) sample_db
    = get_db (find_cafe "Soho") sample_db.
Proof.
  split; [reflexivity|]. split; [reflexivity|].
  apply (find_cafe_ignores_quotes "'" "Soho" (String "034" "'") sample_db); reflexivity.
Defined.

(** X12.  A row whose [location] starts or ends with a quote character is
    returned by no Search, whatever [loc] is. *)
Theorem find_cafe_never_returns_quoted (loc : string) db c cafes :
  starts_in quote_chars (Cafe.location c) = true \/
    ends_in quote_chars (Cafe.location c) = true ->
  (get_db (find_cafe loc) db).1 = Return cafes ->
  c ∉ cafes.
Proof.
  intros Hq. rewrite get_db_find_cafe. simpl. intros Hret Hin.
  assert (Hc : c ∈ filter (fun r => Cafe.location r = strip quote_chars loc) db).
  { destruct (filter _ db); [discriminate Hret|]. injection Hret as <-. exact Hin. }
  apply list_elem_of_filter in Hc as [Hloc _].
  destruct (strip_spec quote_chars loc) as (_ & _ & _ & _ & _ & Hs & He).
  rewrite <- Hloc in Hs, He. destruct Hq as [Hq|Hq]; congruence.
Qed.

Lemma find_cafe_never_returns_quoted_witness :
  (starts_in quote_chars (Cafe.location (Cafe_row 3 quoted)) = true \/
     ends_in quote_chars (Cafe.location (Cafe_row 3 quoted)) = true) /\
  (get_db (find_cafe "'Soho'") (sample_db ++ [Cafe_row 3 quoted])).1
    = Return [Cafe_row 1 soho] /\
  Cafe_row 3 quoted ∉ [Cafe_row 1 soho].
Proof.
  split; [left; reflexivity|]. split; [reflexivity|].
  apply (find_cafe_never_returns_quoted "'Soho'" (sample_db ++ [Cafe_row 3 quoted])
           (Cafe_row 3 quoted) [Cafe_row 1 soho]); [left; reflexivity | reflexivity].
Defined.

End search.

(** ** The replies *)

Section replies.
Implicit Types (db cafes : list Cafe.t) (c : Cafe.t) (cafe : CafeBase.t) (rowids : nat -> Z).

Lemma CafeResponse_validate_is_Some c :
  is_Some (CafeResponse_validate c) <-> is_Some (Cafe.coffee_price c).
Proof.
  unfold CafeResponse_validate. destruct (Cafe.coffee_price c) as [p|]; simpl.
  - split; eauto.
  - split; intros H; destruct (is_Some_None H).
Qed.

Lemma CafeResponse_validate_Cafe_row pk cafe :
  CafeResponse_validate (Cafe_row pk cafe) = Some (CafeResponse.mk pk cafe).
Proof. destruct cafe; reflexivity. Qed.

Lemma response_list_status cafes :
  (priced cafes ->
     status_code (response_model (mapM CafeResponse_validate) (Return cafes)) = 200) /\
  (~ priced cafes ->
     status_code (response_model (mapM CafeResponse_validate) (Return cafes)) = 500).
Proof.
  simpl. split.
  - intros [rs ->]%priced_validate_all. reflexivity.
  - intros Hnot. destruct (mapM CafeResponse_validate cafes) as [rs|] eqn:E; [|reflexivity].
    exfalso. apply Hnot.
    assert (Hsome : is_Some (mapM CafeResponse_validate cafes)) by (rewrite E; eauto).
    apply mapM_is_Some_1 in Hsome. eapply Forall_impl; [exact Hsome|].
    intros c Hc. apply CafeResponse_validate_is_Some, Hc.
Qed.

Lemma POST_add_run rowids (body : Body.t) cafe db :
  CafeCreate_validate body = Some cafe ->
  POST_add rowids body db =
    match new_rowid rowids db with
    | None => (Raise OperationalError, db)
    | Some pk =>
        if decide (CafeBase.name cafe ∈ Cafe.name <$> db)
        then (Raise IntegrityError, db)
        else (Return (CafeResponse.mk pk cafe), insert_by_rowid (Cafe_row pk cafe) db)
    end.
Proof.
  intros Hvalid. unfold POST_add, route. rewrite Hvalid, get_db_add_cafe.
  destruct (new_rowid rowids db) as [pk|]; [|reflexivity].
  destruct (decide _); [reflexivity|].
  cbv beta iota zeta delta [response_model].
  rewrite CafeResponse_validate_Cafe_row. reflexivity.
Qed.

Lemma PATCH_update_price_status (cafe_id : Z) (new_price : string) db :
  status_code (PATCH_update_price cafe_id new_price db).1
    = (if decide (int64 cafe_id)
       then if decide (cafe_id ∈ Cafe.id <$> db) then 200 else 404
       else 500).
Proof.
  unfold PATCH_update_price, route. rewrite get_db_update_price.
  destruct (decide (int64 cafe_id)); [|reflexivity].
  destruct (decide (cafe_id ∈ Cafe.id <$> db)) as [Hin|Hout].
  - destruct (first_by_id_is_Some _ _ Hin) as [c ->]. reflexivity.
  - apply first_by_id_None in Hout. rewrite Hout. reflexivity.
Qed.

Lemma DELETE_report_closed_status (cafe_id : Z) (api_key : string) db :
  status_code (DELETE_report_closed cafe_id api_key db).1
    = (if decide (api_key ≠ "TopSecretAPIKey") then 403
       else if decide (int64 cafe_id)
            then if decide (cafe_id ∈ Cafe.id <$> db) then 200 else 404
            else 500).
Proof.
  unfold DELETE_report_closed, route. rewrite get_db_delete_cafe.
  destruct (decide (api_key ≠ "TopSecretAPIKey")); [reflexivity|].
  destruct (decide (int64 cafe_id)); [|reflexivity].
  destruct (decide (cafe_id ∈ Cafe.id <$> db)) as [Hin|Hout].
  - destruct (first_by_id_is_Some _ _ Hin) as [c ->]. reflexivity.
  - apply first_by_id_None in Hout. rewrite Hout. reflexivity.
Qed.

Lemma serve_status req db :
  (serve req db).1 =
    match req with
    | Get_root skip limit => status_code (GET_root (default 0 skip) (default 10 limit) db).1
    | Get_random seed => status_code (GET_random seed db).1
    | Get_all => status_code (GET_all db).1
    | Get_search loc => status_code (GET_search loc db).1
    | Post_add rowids body => status_code (POST_add rowids body db).1
    | Patch_update_price cafe_id new_price =>
        status_code (PATCH_update_price cafe_id new_price db).1
    | Delete_report_closed cafe_id api_key =>
        status_code (DELETE_report_closed cafe_id api_key db).1
    end.
Proof.
  destruct req; unfold serve.
  - destruct (GET_root _ _ db); reflexivity.
  - destruct (GET_random _ db); reflexivity.
  - destruct (GET_all db); reflexivity.
  - destruct (GET_search _ db); reflexivity.
  - destruct (POST_add _ _ db); reflexivity.
  - destruct (PATCH_update_price _ _ db); reflexivity.
  - destruct (DELETE_report_closed _ _ db); reflexivity.
Qed.

(** X13.  The replies of the read routes depend on the [coffee_price]
    column.  When the handler of All, List or Search returns rows, the reply
    is 200 if each of them has a [coffee_price] and 500 if one of them has
    none; the reply of Random is 200 or 500 in the same way for the row it
    drew. *)
Theorem read_routes_need_prices db :
  ((priced db -> status_code (GET_all db).1 = 200) /\
   (~ priced db -> status_code (GET_all db).1 = 500)) /\
  (forall skip limit cafes,
     (get_db (read_cafes skip limit) db).1 = Return cafes ->
     (priced cafes -> status_code (GET_root skip limit db).1 = 200) /\
     (~ priced cafes -> status_code (GET_root skip limit db).1 = 500)) /\
  (forall loc cafes,
     (get_db (find_cafe loc) db).1 = Return cafes ->
     (priced cafes -> status_code (GET_search loc db).1 = 200) /\
     (~ priced cafes -> status_code (GET_search loc db).1 = 500)) /\
  (forall seed c,
     (get_db (random_cafe seed) db).1 = Return c ->
     (is_Some (Cafe.coffee_price c) -> status_code (GET_random seed db).1 = 200) /\
     (Cafe.coffee_price c = None -> status_code (GET_random seed db).1 = 500)).
Proof.
  unfold GET_all, GET_root, GET_search, GET_random, route.
  split; [|split; [|split]].
  - rewrite get_db_all_cafe. apply response_list_status.
  - intros skip limit cafes.
    destruct (get_db (read_cafes skip limit) db) as [r db']. simpl.
    intros ->. apply response_list_status.
  - intros loc cafes.
    destruct (get_db (find_cafe loc) db) as [r db']. simpl.
    intros ->. apply response_list_status.
  - intros seed c.
    destruct (get_db (random_cafe seed) db) as [r db']. simpl.
    intros ->. simpl. unfold CafeResponse_validate. split.
    + intros [p ->]. reflexivity.
    + intros ->. reflexivity.
Qed.

Lemma read_routes_need_prices_witness :
  priced sample_db /\ ~ priced (sample_db ++ [legacy_row]) /\
  status_code (GET_all sample_db).1 = 200 /\
  status_code (GET_all (sample_db ++ [legacy_row])).1 = 500.
Proof.
  assert (Hp : priced sample_db) by (repeat constructor; simpl; eauto).
  assert (Hn : ~ priced (sample_db ++ [legacy_row])).
  { intros H. unfold priced in H. rewrite Forall_forall in H.
    destruct (H legacy_row) as [p Hprice]; [|discriminate Hprice].
    apply elem_of_app. right. apply list_elem_of_singleton. reflexivity. }
  split; [exact Hp|]. split; [exact Hn|]. split.
  - destruct (read_routes_need_prices sample_db) as [[H _] _]. exact (H Hp).
  - destruct (read_routes_need_prices (sample_db ++ [legacy_row])) as [[_ H] _]. exact (H Hn).
Defined.



(** X15.  The replies of Update-price and Delete.  Update-price replies 500
    exactly when [cafe_id] is outside the signed 64-bit range, and otherwise
    200 when the key is in the store and 404 when it is not.  Delete replies
    403 for a wrong [api_key]; with the right one it replies 500 exactly when
    [cafe_id] is outside the signed 64-bit range, and otherwise 200 when the
    key is in the store and 404 when it is not. *)
Theorem update_and_delete_statuses (cafe_id : Z) (new_price api_key : string) db :
  (serve (Patch_update_price cafe_id new_price) db).1
    = (if decide (int64 cafe_id)
       then if decide (cafe_id ∈ Cafe.id <$> db) then 200 else 404
       else 500) /\
  (serve (Delete_report_closed cafe_id api_key) db).1
    = (if decide (api_key ≠ "TopSecretAPIKey") then 403
       else if decide (int64 cafe_id)
            then if decide (cafe_id ∈ Cafe.id <$> db) then 200 else 404
            else 500).
Proof.
  rewrite !serve_status. split.
  - apply PATCH_update_price_status.
  - apply DELETE_report_closed_status.
Qed.

End replies.

(** ** Sequences of requests *)

Section histories.
Implicit Types (db : list Cafe.t) (c : Cafe.t) (cafe : CafeBase.t) (req : request).

Lemma serve_store req db :
  (serve req db).2 =
    match req with
    | Post_add rowids body =>
        match CafeCreate_validate body with
        | Some cafe => (get_db (add_cafe rowids cafe) db).2
        | None => db
        end
    | Patch_update_price cafe_id new_price => (get_db (update_price cafe_id new_price) db).2
    | Delete_report_closed cafe_id api_key => (get_db (delete_cafe cafe_id api_key) db).2
    | _ => db
    end.
Proof.
  destruct req; unfold serve, GET_root, GET_random, GET_all, GET_search, POST_add,
    PATCH_update_price, DELETE_report_closed, route.
  - rewrite get_db_read_cafes. reflexivity.
  - rewrite get_db_random_cafe. reflexivity.
  - rewrite get_db_all_cafe. reflexivity.
  - rewrite get_db_find_cafe. reflexivity.
  - destruct (CafeCreate_validate body); [|reflexivity].
    destruct (get_db (add_cafe rowids c) db). reflexivity.
  - destruct (get_db (update_price cafe_id new_price) db). reflexivity.
  - destruct (get_db (delete_cafe cafe_id api_key) db). reflexivity.
Qed.

(** X16.  A request that is not answered 200 leaves the store as it was:
    every exception of a handler is raised before anything is committed, and
    a refused INSERT is rolled back. *)
Theorem failed_request_leaves_store req db :
  (serve req db).1 ≠ 200 -> (serve req db).2 = db.
Proof.
  intros Hfail. rewrite serve_store. destruct req; try reflexivity.
  - destruct (CafeCreate_validate body) as [cafe|] eqn:Hvalid; [|reflexivity].
    rewrite serve_status, (POST_add_run rowids body cafe db Hvalid) in Hfail.
    rewrite get_db_add_cafe. destruct (new_rowid rowids db) as [pk|]; [|reflexivity].
    destruct (decide _) as [Hdup|Hnew]; [reflexivity|].
    exfalso. apply Hfail. reflexivity.
  - rewrite serve_status, PATCH_update_price_status in Hfail.
    rewrite get_db_update_price.
    destruct (decide (int64 cafe_id)); [|reflexivity].
    destruct (head _) as [c|] eqn:E; [|reflexivity].
    exfalso. apply Hfail. rewrite decide_True; [reflexivity|].
    destruct (first_by_id_Some _ _ _ E) as [<- Hc]. apply list_elem_of_fmap_2, Hc.
  - rewrite serve_status, DELETE_report_closed_status in Hfail.
    rewrite get_db_delete_cafe.
    destruct (decide (api_key ≠ "TopSecretAPIKey")) as [Hkey|Hkey]; [reflexivity|].
    destruct (decide (int64 cafe_id)); [|reflexivity].
    destruct (head _) as [c|] eqn:E; [|reflexivity].
    exfalso. apply Hfail. rewrite decide_True; [reflexivity|].
    destruct (first_by_id_Some _ _ _ E) as [<- Hc]. apply list_elem_of_fmap_2, Hc.
Qed.

Lemma failed_request_leaves_store_witness :
  (serve (Delete_report_closed 1 "guess") sample_db).1 ≠ 200 /\
  (serve (Delete_report_closed 1 "guess") sample_db).2 = sample_db.
Proof.
  assert (H : (serve (Delete_report_closed 1 "guess") sample_db).1 ≠ 200)
    by (vm_compute; discriminate).
  split; [exact H | exact (failed_request_leaves_store _ sample_db H)].
Defined.

Lemma serve_keeps_invariants req db :
  wf_store db -> priced db -> wf_store (serve req db).2 /\ priced (serve req db).2.
Proof.
  intros Hwf Hp. rewrite serve_store.
  destruct (writes_keep_invariants db Hwf Hp) as (Hadd & Hupd & Hdel).
  destruct req; auto.
  destruct (CafeCreate_validate body); auto.
Qed.

Lemma serve_all_keeps_invariants reqs db :
  wf_store db -> priced db ->
  wf_store (serve_all reqs db) /\ priced (serve_all reqs db).
Proof.
  revert db. induction reqs as [|req reqs IH]; intros db Hwf Hp; [auto|].
  destruct (serve_keeps_invariants req db Hwf Hp) as [Hwf' Hp'].
  exact (IH _ Hwf' Hp').
Qed.

(** X17.  Whatever requests a service that started on an empty table has
    served, its store is well formed (keys increase along the store, so no
    two rows share a key, and no two rows share a [name]) and every row has
    a [coffee_price]. *)
Theorem served_stores_well_formed (reqs : list request) :
  wf_store (serve_all reqs []) /\
  NoDup (Cafe.id <$> serve_all reqs []) /\
  NoDup (Cafe.name <$> serve_all reqs []) /\
  priced (serve_all reqs []).
Proof.
  destruct (serve_all_keeps_invariants reqs [] wf_store_nil priced_nil) as [Hwf Hp].
  split; [exact Hwf|]. split; [apply wf_store_rows_distinct, Hwf|].
  split; [apply Hwf | exact Hp].
Qed.



End histories.
